(** * RoutesService: the route collection manager of the map editor

    A shallow embedding of [RoutesService] (the class that owns the list of
    route layers, the selected layer, route naming, import, split and merge)
    together with the properties its specification states about it.

    Conventions of the embedding.
    - Route layers are JavaScript objects compared with [===] and mutated in
      place, so they live in a store ([heap]) and the service holds
      references ([loc]) to them; a reference is the index of the object in
      the store, and allocation appends.
    - Segments are compared by identity in [indexOf]; a segment therefore
      carries the identity [sid] of its object.  Points and markers are
      never compared or shared in the service and are plain values.
    - A call either returns or throws (a [TypeError] on reading a property
      of [null] or [undefined]); whatever was mutated before the throw stays
      mutated, so both outcomes carry the state.
    - Calls to the map ([addLayer], [removeLayer]) and notifications
      ([routeChanged.next], [raiseDataChanged]) are recorded, in order, in
      the [events] log.
    - A segment of the data model has points; where the code reads a point
      that is not there it gets [undefined] and throws when it measures a
      distance with it, which [firstLatLng] and [distanceToJS] follow.
    - Strings are strings of 8-bit characters. *)

From Stdlib Require Import String Ascii List ZArith QArith Qabs Lia Bool.
From Stdlib Require Import DecimalString DecimalNat DecimalFacts FinFun.
From stdpp Require Import base list strings.

(** ** Data model *)

Record LatLng := { lat : Q; lng : Q }.

Record Marker := {
  latlng : LatLng;
  title : string;
  type : option string   (* [None] is a missing ([undefined]) icon type *)
}.

Record RouteSegment := {
  sid : nat;             (* identity of the segment object *)
  latlngs : list LatLng;
  routePoint : LatLng;
  routingType : string
}.

(** [Common.RouteData], the import and export payload.  [name] is optional
    in the payload; a payload without markers has the empty list. *)
Module RouteData.
Record t := mk {
  name : option string;
  segments : list RouteSegment;
  markers : list Marker
}.
End RouteData.

Record RouteProperties := { name : string; isVisible : bool }.

(** [IRoute]. *)
Module IRoute.
Record t := mk {
  properties : RouteProperties;
  segments : list RouteSegment;
  markers : list Marker
}.
End IRoute.

Definition set_segments (r : IRoute.t) (segs : list RouteSegment) : IRoute.t :=
  IRoute.mk (IRoute.properties r) segs (IRoute.markers r).

Definition set_markers (r : IRoute.t) (ms : list Marker) : IRoute.t :=
  IRoute.mk (IRoute.properties r) (IRoute.segments r) ms.

Inductive LifecycleState := Hidden | ReadOnly | Edit.

Definition EditMode := string.

(** Modelled from the spec: the class [RouteLayer] (route.layer.ts) is not
    among the sources.  Following sections 3 and 4.1, a layer owns one route,
    a lifecycle state in {Hidden, ReadOnly, Edit} and an edit-mode sub-flag;
    the three state setters are unconditional transitions of the lifecycle
    state; [getEditMode]/[setEditMode] read the sub-flag and restore it
    together with the Edit state (the Hidden -> Edit round trip);
    [getLastLatLng] is the last point of the last segment and fails when
    there is none; [reverse] reverses the order of the segments and of the
    points inside each segment (the spec's re-association of routing types
    is not spelled out there and is left out); [getData] is the payload of
    the route. *)
Module RouteLayer.
Record t := mk {
  route : IRoute.t;
  state : LifecycleState;
  editMode : EditMode
}.

Definition setState (st : LifecycleState) (L : t) : t :=
  mk (route L) st (editMode L).
Definition setHiddenState : t -> t := setState Hidden.
Definition setReadOnlyState : t -> t := setState ReadOnly.
Definition setEditRouteState : t -> t := setState Edit.

Definition getEditMode (L : t) : EditMode := editMode L.
Definition setEditMode (m : EditMode) (L : t) : t := mk (route L) Edit m.

Definition setRoute (r : IRoute.t) (L : t) : t := mk r (state L) (editMode L).

Definition getLastLatLng (L : t) : option LatLng :=
  match last (IRoute.segments (route L)) with
  | Some seg => last (latlngs seg)
  | None => None
  end.

Definition reverseSegment (seg : RouteSegment) : RouteSegment :=
  {| sid := sid seg; latlngs := rev (latlngs seg);
     routePoint := routePoint seg; routingType := routingType seg |}.

Definition reverse (L : t) : t :=
  setRoute (set_segments (route L)
              (rev (map reverseSegment (IRoute.segments (route L))))) L.

Definition getData (L : t) : RouteData.t :=
  RouteData.mk (Some (name (IRoute.properties (route L))))
               (IRoute.segments (route L)) (IRoute.markers (route L)).
End RouteLayer.

(** Modelled from the spec: [RouteLayerFactory] (route-layer.factory.ts) is
    not among the sources.  Following sections 2 and 6 it wraps a route, or
    the route described by an import payload, in a new layer; the new layer
    starts at the first state of the state machine of section 4.2, Hidden,
    and a route built from a payload is visible. *)
Module RouteLayerFactory.
Definition createRouteLayer (route : IRoute.t) : RouteLayer.t :=
  RouteLayer.mk route Hidden "None".

Definition createRouteLayerFromData (d : RouteData.t) : RouteLayer.t :=
  RouteLayer.mk
    (IRoute.mk {| name := default "" (RouteData.name d); isVisible := true |}
               (RouteData.segments d) (RouteData.markers d))
    Hidden "None".
End RouteLayerFactory.

(** The two resource strings the service reads. *)
Record ResourcesService := { route : string; split : string }.

Abbreviation loc := nat (only parsing).

Inductive Event :=
| MapAddLayer (l : loc)
| MapRemoveLayer (l : loc)
| RouteChanged (selected : option loc)
| DataChanged (l : loc).

Record RoutesService := {
  resourcesService : ResourcesService;
  heap : list RouteLayer.t;
  routes : list loc;
  selectedRoute : option loc;
  nextSid : nat;
  events : list Event
}.

(** The constructor: no routes, nothing selected. *)
Definition constructor (res : ResourcesService) : RoutesService :=
  {| resourcesService := res; heap := []; routes := [];
     selectedRoute := None; nextSid := 0; events := [] |}.

Definition layerName (L : RouteLayer.t) : string :=
  name (IRoute.properties (RouteLayer.route L)).

Definition layerSegments (L : RouteLayer.t) : list RouteSegment :=
  IRoute.segments (RouteLayer.route L).

Definition layerMarkers (L : RouteLayer.t) : list Marker :=
  IRoute.markers (RouteLayer.route L).

(** The layers of the collection, in collection order. *)
Definition routeLayers (s : RoutesService) : list RouteLayer.t :=
  omap (fun l => heap s !! l) (routes s).

Definition routeNames (s : RoutesService) : list string :=
  map layerName (routeLayers s).

(** ** Route names *)

(** [getRouteByName]: lodash [find], the first layer of the collection
    bearing the name. *)
Fixpoint findByName (h : list RouteLayer.t) (routeName : string)
    (ls : list loc) : option loc :=
  match ls with
  | [] => None
  | l :: ls' =>
      match h !! l with
      | Some L => if String.eqb (layerName L) routeName then Some l
                  else findByName h routeName ls'
      | None => findByName h routeName ls'
      end
  end.

Definition getRouteByName (s : RoutesService) (routeName : string) : option loc :=
  findByName (heap s) routeName (routes s).

(** [isNameAvailable]: [route == null && name != null && name !== ""];
    an absent name looks up nothing. *)
Definition isNameAvailable (s : RoutesService) (name : option string) : bool :=
  match name with
  | None => false
  | Some n =>
      match getRouteByName s n with
      | None => negb (String.eqb n "")
      | Some _ => false
      end
  end.

(** The regular expression of [createRouteName]: a group of any characters,
    greedy, then a space, then one or more digits; it is not anchored. *)
Definition isDigit (c : ascii) : bool :=
  let n := nat_of_ascii c in (48 <=? n) && (n <=? 57).

(** [.] matches every character but a line terminator: line feed and
    carriage return (the two Unicode separators are not 8-bit characters). *)
Definition isLineTerminator (c : ascii) : bool :=
  let n := nat_of_ascii c in (n =? 10) || (n =? 13).

Definition isSpace (c : ascii) : bool := nat_of_ascii c =? 32.

(** [\d+], greedy, at the head of [s]: what is left after the digits. *)
Fixpoint skipDigits (s : string) : string :=
  match s with
  | String c s' => if isDigit c then skipDigits s' else s
  | EmptyString => s
  end.

(** A match of the whole pattern at the head of [s]: group 1 and the text
    after the match.  [.*] is greedy, so the longer group is tried first and
    the matcher backtracks to the shorter one. *)
Fixpoint matchHere (s : string) : option (string * string) :=
  match s with
  | EmptyString => None
  | String c s' =>
      let longer :=
        if isLineTerminator c then None
        else match matchHere s' with
             | Some (g, r) => Some (String c g, r)
             | None => None
             end in
      match longer with
      | Some m => Some m
      | None =>
          if isSpace c then
            match s' with
            | String d s'' => if isDigit d then Some (EmptyString, skipDigits s'') else None
            | EmptyString => None
            end
          else None
      end
  end.

(** [routeName.replace] with that pattern and the replacement [$1]: the
    leftmost match is replaced by its group 1; without a match the string is
    unchanged. *)
Fixpoint stripNumber (s : string) : string :=
  match matchHere s with
  | Some (g, r) => g +:+ r
  | None =>
      match s with
      | String c s' => String c (stripNumber s')
      | EmptyString => EmptyString
      end
  end.

(** The template [`${routeName} ${index}`]. *)
Definition showIndex (index : nat) : string :=
  NilEmpty.string_of_uint (Nat.to_uint index).

Definition candidateName (routeName : string) (index : nat) : string :=
  routeName +:+ " " +:+ showIndex index.

(** [_.some(this.routes, l => l.route.properties.name === n)]. *)
Definition nameInUse (names : list string) (n : string) : bool :=
  existsb (fun m => String.eqb m n) names.

(** The [while] loop of [createRouteName]; [fuel] bounds the iterations. *)
Fixpoint createRouteName_loop (fuel : nat) (names : list string)
    (routeName : string) (index : nat) : option string :=
  match fuel with
  | O => None
  | S fuel' =>
      let availableRouteName := candidateName routeName index in
      if nameInUse names availableRouteName
      then createRouteName_loop fuel' names routeName (S index)
      else Some availableRouteName
  end.

(** [createRouteName]; an absent argument takes the default,
    [resourcesService.route].  One more iteration than there are routes is
    always enough ([createRouteName_loop_returns]), so the last branch is
    never taken. *)
Definition createRouteName (s : RoutesService) (routeName : option string) : string :=
  let routeName := default (route (resourcesService s)) routeName in
  let routeName := stripNumber routeName in
  match createRouteName_loop (S (length (routeNames s))) (routeNames s) routeName 1 with
  | Some n => n
  | None => routeName
  end.

(** ** Calls: a state and exception monad *)

Inductive outcome (A : Type) :=
| Returned (a : A) (s : RoutesService)
| Thrown (s : RoutesService).
Arguments Returned {A} a s.
Arguments Thrown {A} s.

(** The state a call leaves behind, however it ends. *)
Definition final {A} (o : outcome A) : RoutesService :=
  match o with Returned _ s => s | Thrown s => s end.

Definition M (A : Type) : Type := RoutesService -> outcome A.

Definition ret {A} (a : A) : M A := fun s => Returned a s.
Definition throw {A} : M A := fun s => Thrown s.
Definition bind {A B} (m : M A) (k : A -> M B) : M B :=
  fun s => match m s with
           | Returned a s' => k a s'
           | Thrown s' => Thrown s'
           end.

Notation "'let!' x ':=' m 'in' k" := (bind m (fun x => k))
  (at level 10, x name, m at level 100, k at level 200).
Notation "m1 '>>' m2" := (bind m1 (fun _ => m2))
  (at level 100, m2 at level 200, right associativity).

Definition get : M RoutesService := fun s => Returned s s.
Definition modify (f : RoutesService -> RoutesService) : M unit :=
  fun s => Returned tt (f s).

(** A value that has to be there: reading through [undefined] throws. *)
Definition orThrow {A} (o : option A) : M A :=
  match o with Some a => ret a | None => throw end.

Definition set_heap (h : list RouteLayer.t) (s : RoutesService) : RoutesService :=
  {| resourcesService := resourcesService s; heap := h; routes := routes s;
     selectedRoute := selectedRoute s; nextSid := nextSid s; events := events s |}.
Definition set_routes (r : list loc) (s : RoutesService) : RoutesService :=
  {| resourcesService := resourcesService s; heap := heap s; routes := r;
     selectedRoute := selectedRoute s; nextSid := nextSid s; events := events s |}.
Definition set_selectedRoute (o : option loc) (s : RoutesService) : RoutesService :=
  {| resourcesService := resourcesService s; heap := heap s; routes := routes s;
     selectedRoute := o; nextSid := nextSid s; events := events s |}.
Definition set_nextSid (n : nat) (s : RoutesService) : RoutesService :=
  {| resourcesService := resourcesService s; heap := heap s; routes := routes s;
     selectedRoute := selectedRoute s; nextSid := n; events := events s |}.
Definition set_events (e : list Event) (s : RoutesService) : RoutesService :=
  {| resourcesService := resourcesService s; heap := heap s; routes := routes s;
     selectedRoute := selectedRoute s; nextSid := nextSid s; events := e |}.

(** The object behind a reference. *)
Definition deref (l : loc) : M RouteLayer.t :=
  fun s => orThrow (heap s !! l) s.

(** A method that mutates the object behind a reference.  A reference the
    service holds always denotes an object; on any other number the update
    changes nothing. *)
Definition update (l : loc) (f : RouteLayer.t -> RouteLayer.t) : M unit :=
  modify (fun s => set_heap (alter f l (heap s)) s).

(** A new object. *)
Definition alloc (L : RouteLayer.t) : M loc :=
  fun s => Returned (length (heap s)) (set_heap (heap s ++ [L]) s).

Definition emit (e : Event) : M unit :=
  modify (fun s => set_events (events s ++ [e]) s).

(** [this.routes.push(l)]. *)
Definition pushRoute (l : loc) : M unit :=
  modify (fun s => set_routes (routes s ++ [l]) s).

(** The identity of a new segment object. *)
Definition freshSid : M nat :=
  fun s => Returned (nextSid s) (set_nextSid (S (nextSid s)) s).

(** ** Arrays *)

(** [Array.prototype.indexOf]: the first index holding the element, -1
    without one. *)
Fixpoint indexOfFrom {A} (same : A -> bool) (i : Z) (l : list A) : Z :=
  match l with
  | [] => (-1)%Z
  | x :: l' => if same x then i else indexOfFrom same (i + 1)%Z l'
  end.

Definition indexOfLoc (l : loc) (ls : list loc) : Z :=
  indexOfFrom (Nat.eqb l) 0%Z ls.

Definition indexOfSegment (seg : RouteSegment) (segs : list RouteSegment) : Z :=
  indexOfFrom (fun x => Nat.eqb (sid x) (sid seg)) 0%Z segs.

(** The start index of [splice]: counted from the end when negative, and
    clamped to the array. *)
Definition spliceStart (start : Z) (len : nat) : nat :=
  if (start <? 0)%Z then Z.to_nat (Z.max (Z.of_nat len + start) 0)
  else Nat.min (Z.to_nat start) len.

(** [a.splice(start)]: what stays in the array and what is removed. *)
Definition spliceFrom {A} (start : Z) (l : list A) : list A * list A :=
  let i := spliceStart start (length l) in (take i l, drop i l).

(** [a.splice(start, 1)]: what stays in the array. *)
Definition spliceOne {A} (start : Z) (l : list A) : list A :=
  let i := spliceStart start (length l) in take i l ++ drop (S i) l.

(** ** Selection and the collection *)

Definition sameRef (o : option loc) (l : loc) : bool :=
  match o with Some l' => Nat.eqb l' l | None => false end.

Definition selectRoute (routeLayer : option loc) : M unit :=
  let! s := get in
  (match selectedRoute s with
   | Some old => update old RouteLayer.setReadOnlyState
   | None => ret tt
   end) >>
  modify (set_selectedRoute routeLayer) >>
  emit (RouteChanged routeLayer).

Definition addRoute (route : IRoute.t) : M unit :=
  let! routeLayer := alloc (RouteLayerFactory.createRouteLayer route) in
  pushRoute routeLayer >>
  emit (MapAddLayer routeLayer) >>
  update routeLayer RouteLayer.setEditRouteState >>
  selectRoute (Some routeLayer).

Definition removeRoute (routeName : string) : M unit :=
  let! s := get in
  match getRouteByName s routeName with
  | None => ret tt
  | Some routeLayer =>
      (if sameRef (selectedRoute s) routeLayer then selectRoute None else ret tt) >>
      emit (MapRemoveLayer routeLayer) >>
      modify (fun s => set_routes (spliceOne (indexOfLoc routeLayer (routes s)) (routes s)) s)
  end.

Definition layerVisible (L : RouteLayer.t) : bool :=
  isVisible (IRoute.properties (RouteLayer.route L)).

Definition changeRouteState (routeLayer : loc) : M unit :=
  let! L := deref routeLayer in
  let! s := get in
  if sameRef (selectedRoute s) routeLayer && layerVisible L then
    selectRoute None >>
    emit (MapRemoveLayer routeLayer)
  else
    (if negb (layerVisible L) then emit (MapAddLayer routeLayer) else ret tt) >>
    selectRoute (Some routeLayer).

(** [getData]: the payloads of the visible routes. *)
Definition getData (s : RoutesService) : list RouteData.t :=
  map RouteLayer.getData (filter (fun L => layerVisible L = true) (routeLayers s)).

(** ** Import, split and merge *)

Definition MERGE_THRESHOLD : Q := 50.

(** [a < b] on distances. *)
Definition Qltb (a b : Q) : bool := negb (Qle_bool b a).

Definition setLayerSegments (segs : list RouteSegment) (L : RouteLayer.t) : RouteLayer.t :=
  RouteLayer.setRoute (set_segments (RouteLayer.route L) segs) L.

Definition setLayerMarkers (ms : list Marker) (L : RouteLayer.t) : RouteLayer.t :=
  RouteLayer.setRoute (set_markers (RouteLayer.route L) ms) L.

(** [latlngs.splice(0, 0, p)]. *)
Definition prependLatLng (p : LatLng) (seg : RouteSegment) : RouteSegment :=
  {| sid := sid seg; latlngs := p :: latlngs seg;
     routePoint := routePoint seg; routingType := routingType seg |}.

(** [layer.route.segments[0].latlngs[0]]: throws without a first segment,
    and is [undefined] ([None]) when that segment has no point. *)
Definition firstLatLng (L : RouteLayer.t) : M (option LatLng) :=
  match layerSegments L with
  | [] => throw
  | seg :: _ => ret (head (latlngs seg))
  end.

(** [layer.getLastLatLng()], which fails without a last point. *)
Definition lastLatLng (L : RouteLayer.t) : M LatLng :=
  orThrow (RouteLayer.getLastLatLng L).

Definition withName (n : option string) (d : RouteData.t) : RouteData.t :=
  RouteData.mk n (RouteData.segments d) (RouteData.markers d).

Definition withType (t : option string) (m : Marker) : Marker :=
  {| latlng := latlng m; title := title m; type := t |}.

(** Modelled from the spec: [MapService.routesJsonToRoutesObject]
    (map.service.ts) is not among the sources.  Section 6 gives the payload
    as routes of segments of points and markers; the conversion turns the
    plain coordinates of a parsed payload into map points, which are the
    same values here.  A payload without a marker list (the one
    [splitSelectedRouteAt] builds, which section 4.2 has imported as a new
    route) is a payload with no markers. *)
Definition routesJsonToRoutesObject (rs : list RouteData.t) : list RouteData.t := rs.

Section Service.

(** [L.LatLng.distanceTo] of the map library, in meters. *)
Variable distanceTo : LatLng -> LatLng -> Q.

(** [IconsService.getAvailableIconTypes()], a table of another service. *)
Variable availableIconTypes : list string.

(** [a.distanceTo(b)]; it throws when either point is [undefined]. *)
Definition distanceToJS (a b : option LatLng) : M Q :=
  match a, b with
  | Some a, Some b => ret (distanceTo a b)
  | _, _ => throw
  end.

(** The body of the marker loop of [setData]: an icon type that is not
    found among the available ones (or is the empty string, which is
    falsy) is replaced by the first available one. *)
Definition normalizeType (m : Marker) : Marker :=
  match type m with
  | Some t =>
      if existsb (String.eqb t) availableIconTypes && negb (String.eqb t "")
      then m else withType (head availableIconTypes) m
  | None => withType (head availableIconTypes) m
  end.

Definition normalizeMarkers (d : RouteData.t) : RouteData.t :=
  RouteData.mk (RouteData.name d) (RouteData.segments d)
               (map normalizeType (RouteData.markers d)).

(** The body of the route loop of [addLayersToMap]. *)
Definition addLayerFromData (routeData : RouteData.t) : M unit :=
  let! s := get in
  let routeData :=
    if isNameAvailable s (RouteData.name routeData) then routeData
    else withName (Some (createRouteName s (RouteData.name routeData))) routeData in
  let! routeLayer := alloc (RouteLayerFactory.createRouteLayerFromData routeData) in
  pushRoute routeLayer >>
  emit (MapAddLayer routeLayer) >>
  selectRoute (Some routeLayer).

Fixpoint addLayersFromData (rs : list RouteData.t) : M unit :=
  match rs with
  | [] => ret tt
  | routeData :: rs' => addLayerFromData routeData >> addLayersFromData rs'
  end.

(** The markers-only case of [addLayersToMap]. *)
Definition addMarkersToSelected (d : RouteData.t) : M unit :=
  let! s := get in
  (match selectedRoute s with
   | None => modify (set_selectedRoute (head (routes s)))
   | Some _ => ret tt
   end) >>
  let! s := get in
  let! sel := orThrow (selectedRoute s) in
  let! L := deref sel in
  let editMode := RouteLayer.getEditMode L in
  update sel RouteLayer.setHiddenState >>
  update sel (fun L => setLayerMarkers (layerMarkers L ++ RouteData.markers d) L) >>
  update sel (RouteLayer.setEditMode editMode).

Definition addLayersToMap (rs : list RouteData.t) : M unit :=
  let! s := get in
  match rs with
  | [d] =>
      if (length (RouteData.segments d) =? 0) && (0 <? length (routes s))
      then addMarkersToSelected d
      else addLayersFromData rs
  | _ => addLayersFromData rs
  end.

(** [setData]; [None] is a [null] argument. *)
Definition setData (rs : option (list RouteData.t)) : M unit :=
  match rs with
  | None => ret tt
  | Some [] => ret tt
  | Some rs =>
      let rs := routesJsonToRoutesObject rs in
      let rs := map normalizeMarkers rs in
      addLayersToMap rs
  end.

Definition splitSelectedRouteAt (segmenet : RouteSegment) : M unit :=
  let! s := get in
  let! sel := orThrow (selectedRoute s) in
  let! L := deref sel in
  let segmentIndex := indexOfSegment segmenet (layerSegments L) in
  let currentName := layerName L in
  update sel RouteLayer.setHiddenState >>
  let '(kept, postFixSegments) := spliceFrom (segmentIndex + 1)%Z (layerSegments L) in
  update sel (setLayerSegments kept) >>
  let! L := deref sel in
  let! startPoint := lastLatLng L in
  let! first := orThrow (head postFixSegments) in
  let! newSid := freshSid in
  let bridge := {| sid := newSid; latlngs := [startPoint; startPoint];
                   routePoint := startPoint; routingType := routingType first |} in
  let routePostFix :=
    RouteData.mk (Some (currentName +:+ split (resourcesService s)))
                 (bridge :: postFixSegments) [] in
  setData (Some [routePostFix]) >>
  let! s := get in
  let! sel := orThrow (selectedRoute s) in
  update sel RouteLayer.setEditRouteState >>
  emit (DataChanged sel).

(** The loop of [getClosestRoute] over the collection. *)
Fixpoint closestAmong (sel : loc) (latLngToCheck : option LatLng)
    (ls : list loc) : M (option loc) :=
  match ls with
  | [] => ret None
  | routeLayer :: ls' =>
      let! R := deref routeLayer in
      if Nat.eqb routeLayer sel || (length (layerSegments R) <=? 0)
      then closestAmong sel latLngToCheck ls'
      else
        let! p := lastLatLng R in
        let! d := distanceToJS (Some p) latLngToCheck in
        if Qltb d MERGE_THRESHOLD then ret (Some routeLayer)
        else
          let! q := firstLatLng R in
          let! d := distanceToJS q latLngToCheck in
          if Qltb d MERGE_THRESHOLD then ret (Some routeLayer)
          else closestAmong sel latLngToCheck ls'
  end.

(** The end of the selected route that is compared: its first point when
    [isFirst], else its last one. *)
Definition endToCheck (isFirst : bool) (L : RouteLayer.t) : M (option LatLng) :=
  if isFirst then firstLatLng L
  else let! p := lastLatLng L in ret (Some p).

Definition getClosestRoute (isFirst : bool) : M (option loc) :=
  let! s := get in
  let! sel := orThrow (selectedRoute s) in
  let! L := deref sel in
  let! latLngToCheck := endToCheck isFirst L in
  closestAmong sel latLngToCheck (routes s).

Definition mergeSelectedRouteToClosest (isFirst : bool) : M unit :=
  let! closestRoute := getClosestRoute isFirst in
  let! s := get in
  let! sel := orThrow (selectedRoute s) in
  update sel RouteLayer.setHiddenState >>
  let! closest := orThrow closestRoute in
  let! C := deref closest in
  removeRoute (layerName C) >>
  let! C := deref closest in
  let markersToAdd := layerMarkers C in
  let! s := get in
  let! sel := orThrow (selectedRoute s) in
  update sel (fun L => setLayerMarkers (layerMarkers L ++ markersToAdd) L) >>
  let! L := deref sel in
  let! latLngToCheck := endToCheck isFirst L in
  (if isFirst then
     let! C := deref closest in
     let! q := firstLatLng C in
     let! d := distanceToJS q latLngToCheck in
     (if Qltb d MERGE_THRESHOLD then update closest RouteLayer.reverse else ret tt) >>
     update sel (fun L => setLayerSegments (spliceOne 0 (layerSegments L)) L) >>
     let! L := deref sel in
     match layerSegments L with
     | [] => throw
     | seg :: rest =>
         let! C := deref closest in
         let! p := lastLatLng C in
         update sel (setLayerSegments (prependLatLng p seg :: rest)) >>
         update sel (fun L => setLayerSegments (layerSegments C ++ layerSegments L) L)
     end
   else
     let! C := deref closest in
     let! p := lastLatLng C in
     let! d := distanceToJS (Some p) latLngToCheck in
     (if Qltb d MERGE_THRESHOLD then update closest RouteLayer.reverse else ret tt) >>
     update closest (fun C => setLayerSegments (spliceOne 0 (layerSegments C)) C) >>
     let! C := deref closest in
     match layerSegments C with
     | [] => throw
     | seg :: rest =>
         let! L := deref sel in
         let! p := lastLatLng L in
         update closest (setLayerSegments (prependLatLng p seg :: rest)) >>
         let! C := deref closest in
         update sel (fun L => setLayerSegments (layerSegments L ++ layerSegments C) L)
     end) >>
  update sel RouteLayer.setEditRouteState >>
  emit (DataChanged sel).

End Service.

(** ** Sequences of calls *)

Inductive Op :=
| AddRoute (route : IRoute.t)
| RemoveRoute (routeName : string)
| ChangeRouteState (routeLayer : loc)
| SetData (routes : option (list RouteData.t))
| SplitSelectedRouteAt (segment : RouteSegment)
| MergeSelectedRouteToClosest (isFirst : bool).

Section Calls.

Variable distanceTo : LatLng -> LatLng -> Q.
Variable availableIconTypes : list string.

Definition call (op : Op) : M unit :=
  match op with
  | AddRoute route => addRoute route
  | RemoveRoute routeName => removeRoute routeName
  | ChangeRouteState routeLayer => changeRouteState routeLayer
  | SetData rs => setData availableIconTypes rs
  | SplitSelectedRouteAt segment => splitSelectedRouteAt availableIconTypes segment
  | MergeSelectedRouteToClosest isFirst =>
      mergeSelectedRouteToClosest distanceTo isFirst
  end.

(** The calls run one after the other on the event thread; a call that
    throws leaves the state it reached to the next call. *)
Fixpoint callAll (ops : list Op) (s : RoutesService) : RoutesService :=
  match ops with
  | [] => s
  | op :: ops' => callAll ops' (final (call op s))
  end.

End Calls.

(** ** Assertions *)

(** Only the selected layer is in Edit state. *)
Definition editOnlySelected (s : RoutesService) : Prop :=
  forall l L, heap s !! l = Some L -> RouteLayer.state L = Edit ->
              selectedRoute s = Some l.

(** A call started in a state of [P] returns in a state of [Q], or throws in
    a state of [X]. *)
Definition triple {A} (P : RoutesService -> Prop) (m : M A)
    (Q : A -> RoutesService -> Prop) (X : RoutesService -> Prop) : Prop :=
  forall s, P s ->
    match m s with
    | Returned a s' => Q a s'
    | Thrown s' => X s'
    end.

(** ** The closest route, in the words of the specification *)

(** The first point of a route: the first point of its first segment. *)
Definition firstPoint (L : RouteLayer.t) : option LatLng :=
  match layerSegments L with
  | seg :: _ => head (latlngs seg)
  | [] => None
  end.

Section Closest.

Variable distanceTo : LatLng -> LatLng -> Q.

(** An end point lying within the merge threshold of [p]. *)
Definition withinThreshold (q : option LatLng) (p : LatLng) : bool :=
  match q with
  | Some q => Qltb (distanceTo q p) MERGE_THRESHOLD
  | None => false
  end.

(** A candidate: another route than the selected one, with segments,
    whose last or first point lies within the threshold of [p]. *)
Definition isCandidate (s : RoutesService) (sel : loc) (p : LatLng)
    (l : loc) : bool :=
  match heap s !! l with
  | Some R =>
      negb (Nat.eqb l sel) && negb (length (layerSegments R) =? 0) &&
      (withinThreshold (RouteLayer.getLastLatLng R) p ||
       withinThreshold (firstPoint R) p)
  | None => false
  end.

(** The first candidate in collection order. *)
Definition firstCandidate (s : RoutesService) (sel : loc) (p : LatLng) : option loc :=
  List.find (isCandidate s sel p) (routes s).

End Closest.

(** The end of the selected route that [getClosestRoute] compares. *)
Definition comparedEnd (isFirst : bool) (L : RouteLayer.t) : option LatLng :=
  if isFirst then firstPoint L else RouteLayer.getLastLatLng L.

(** The names borne by the layers behind a list of references. *)
Definition namesOf (h : list RouteLayer.t) (ls : list loc) : list string :=
  map layerName (omap (fun l => h !! l) ls).

(** The layer that [addLayersToMap] creates for a payload in state [s]:
    under the payload's name when that name is available, else under the
    name [createRouteName] makes of it. *)
Definition importedLayer (s : RoutesService) (routeData : RouteData.t) : RouteLayer.t :=
  RouteLayerFactory.createRouteLayerFromData
    (if isNameAvailable s (RouteData.name routeData) then routeData
     else withName (Some (createRouteName s (RouteData.name routeData))) routeData).

(** An assertion that a call keeps, whether it returns or throws. *)
Definition stable {A} (P : RoutesService -> Prop) (m : M A) : Prop :=
  triple P m (fun _ => P) P.

(** Only the selected layer is in Edit state, and the selection is the
    given layer when one is given. *)
Definition editInvariant (o : option loc) (s : RoutesService) : Prop :=
  editOnlySelected s /\ forall l, o = Some l -> selectedRoute s = Some l.

(** The state of a merge once the closest route is out of the collection
    and its markers are on the selected route: the collection is [rs], the
    selection is [sel], the layers bear the names they bore in the store
    [h0], and the markers of the selected route are [ms]. *)
Definition mergedInto (h0 : list RouteLayer.t) (rs : list loc) (sel : loc)
    (ms : list Marker) (s : RoutesService) : Prop :=
  routes s = rs /\ selectedRoute s = Some sel /\
  (forall ls, namesOf (heap s) ls = namesOf h0 ls) /\
  exists S', heap s !! sel = Some S' /\ layerMarkers S' = ms.

(** ** Shapes of names and of states, for the statements below *)

(** A space followed by a digit somewhere in the name. *)
Fixpoint hasSpaceDigit (s : string) : bool :=
  match s with
  | String c s' =>
      (isSpace c && match s' with String d _ => isDigit d | EmptyString => false end)
      || hasSpaceDigit s'
  | EmptyString => false
  end.

(** A name without a line terminator. *)
Fixpoint singleLine (s : string) : bool :=
  match s with
  | String c s' => negb (isLineTerminator c) && singleLine s'
  | EmptyString => true
  end.

Fixpoint allDigits (s : string) : bool :=
  match s with
  | String c s' => isDigit c && allDigits s'
  | EmptyString => true
  end.

(** Every reference the service holds denotes an object of the store. *)
Definition validRefs (s : RoutesService) : Prop :=
  (forall l, In l (routes s) -> l < length (heap s)) /\
  (forall l, selectedRoute s = Some l -> l < length (heap s)).

(** The collection holds no layer twice and holds valid references. *)
Definition collectionInvariant (s : RoutesService) : Prop :=
  List.NoDup (routes s) /\ validRefs s.

(** The markers-only case of [addLayersToMap]. *)
Definition markersOnly (rs : list RouteData.t) (s : RoutesService) : bool :=
  match rs with
  | [d] => (length (RouteData.segments d) =? 0) && (0 <? length (routes s))
  | _ => false
  end.

(** The route names are pairwise distinct and the references are valid. *)
Definition namesInvariant (s : RoutesService) : Prop :=
  List.NoDup (routeNames s) /\ validRefs s.

(** The two invariants above, [names] choosing between them, with a loose
    reference [o] known to denote an object. *)
Definition refsInvariant (names : bool) (o : option loc) (s : RoutesService) : Prop :=
  (if names then List.NoDup (routeNames s) else List.NoDup (routes s)) /\
  validRefs s /\
  forall l, o = Some l -> l < length (heap s).

(** A call that does not add a route under a name in use. *)
Definition addsAvailableName (op : Op) (s : RoutesService) : Prop :=
  match op with
  | AddRoute r => isNameAvailable s (Some (name (IRoute.properties r))) = true
  | _ => True
  end.

(** ** Sample data *)

Module Sample.
Definition resources : ResourcesService := {| route := "Route"; split := " Split" |}.

(** A stand-in for the map's distance: the taxicab distance. *)
Definition distance (a b : LatLng) : Q :=
  Qabs (lat a - lat b) + Qabs (lng a - lng b).

Definition iconTypes : list string := ["star"; "flag"].

Definition point (x y : Z) : LatLng := {| lat := inject_Z x; lng := inject_Z y |}.

Definition segment (i : nat) (ps : list LatLng) : RouteSegment :=
  {| sid := i; latlngs := ps; routePoint := default (point 0 0) (last ps);
     routingType := "Hike" |}.

Definition routeNamed (n : string) (segs : list RouteSegment)
    (ms : list Marker) : IRoute.t :=
  IRoute.mk {| name := n; isVisible := true |} segs ms.

Definition marker (t : string) (p : LatLng) : Marker :=
  {| latlng := p; title := t; type := Some "star" |}.

Definition empty : RoutesService := constructor resources.

Definition calls (ops : list Op) : RoutesService :=
  callAll distance iconTypes ops empty.

(** A route from (0,0) to (100,0), and a route that starts 10 meters from
    its end: with its start segment ([routeB]) and without ([routeB1]). *)
Definition s1 : RouteSegment := segment 1 [point 0 0; point 100 0].
Definition b0 : RouteSegment := segment 2 [point 110 0; point 110 0].
Definition s2 : RouteSegment := segment 3 [point 110 0; point 300 0].

Definition routeA : IRoute.t := routeNamed "A" [s1] [marker "a" (point 0 0)].
Definition routeB : IRoute.t := routeNamed "B" [b0; s2] [marker "b" (point 300 0)].
Definition routeB1 : IRoute.t := routeNamed "B" [s2] [marker "b" (point 300 0)].
Definition namesakeOfA : IRoute.t :=
  routeNamed "A" [b0; s2] [marker "b" (point 300 0)].

(** The collection [A, B] with A selected. *)
Definition joinable : RoutesService :=
  calls [AddRoute routeA; AddRoute routeB; ChangeRouteState 0].

(** The same with one segment in each route. *)
Definition oneSegmentEach : RoutesService :=
  calls [AddRoute routeA; AddRoute routeB1; ChangeRouteState 0].

(** The same with two routes named "A". *)
Definition namesakes : RoutesService :=
  calls [AddRoute routeA; AddRoute namesakeOfA; ChangeRouteState 0].

(** A selected route of three segments. *)
Definition g1 : RouteSegment := segment 5 [point 0 0; point 0 0].
Definition g2 : RouteSegment := segment 6 [point 0 0; point 10 0].
Definition g3 : RouteSegment := segment 7 [point 10 0; point 20 0].
Definition threeSegments : RoutesService :=
  calls [AddRoute (routeNamed "T" [g1; g2; g3] [])].

(** The layer behind a reference of a sample state. *)
Definition layer (s : RoutesService) (l : loc) : RouteLayer.t :=
  default (RouteLayerFactory.createRouteLayer (routeNamed "" [] [])) (heap s !! l).
End Sample.
(** * Properties *)

(** ** Route names *)

Lemma showIndex_inj (a b : nat) : showIndex a = showIndex b -> a = b.
Proof.
  unfold showIndex. intros H.
  apply (f_equal NilEmpty.uint_of_string) in H.
  rewrite !NilEmpty.usu in H. injection H as H.
  apply (f_equal Nat.of_uint) in H. now rewrite !Unsigned.of_to in H.
Qed.

Lemma append_inj_r (s a b : string) : s +:+ a = s +:+ b -> a = b.
Proof.
  induction s as [|c s IH]; simpl; intros H; [exact H|].
  injection H as H. auto.
Qed.

Lemma candidateName_inj (r : string) (a b : nat) :
  candidateName r a = candidateName r b -> a = b.
Proof.
  unfold candidateName. intros H.
  apply append_inj_r in H. apply append_inj_r in H. now apply showIndex_inj.
Qed.

Lemma candidateName_nonempty (r : string) (k : nat) : candidateName r k <> "".
Proof.
  unfold candidateName. destruct r; simpl; discriminate.
Qed.

Lemma nameInUse_In (names : list string) (n : string) :
  nameInUse names n = true <-> In n names.
Proof.
  unfold nameInUse. rewrite existsb_exists. split.
  - intros (m & Hm & E). apply String.eqb_eq in E. now subst.
  - intros H. exists n. split; [exact H | apply String.eqb_refl].
Qed.

Lemma createRouteName_loop_None fuel names r i :
  createRouteName_loop fuel names r i = None ->
  forall j, i <= j < i + fuel -> In (candidateName r j) names.
Proof.
  revert i. induction fuel as [|fuel IH]; intros i H j Hj; [lia|].
  simpl in H.
  destruct (nameInUse names (candidateName r i)) eqn:U; [|discriminate].
  destruct (Nat.eq_dec j i) as [->|Hne].
  - now apply nameInUse_In.
  - apply (IH (S i) H). lia.
Qed.

Lemma createRouteName_loop_Some fuel names r i n :
  createRouteName_loop fuel names r i = Some n ->
  exists k, i <= k /\ n = candidateName r k /\ ~ In n names /\
            forall j, i <= j < k -> In (candidateName r j) names.
Proof.
  revert i. induction fuel as [|fuel IH]; intros i H; [discriminate|].
  simpl in H.
  destruct (nameInUse names (candidateName r i)) eqn:U.
  - destruct (IH (S i) H) as (k & Hk & -> & Hfree & Hbelow).
    exists k. repeat split; [lia | exact Hfree |].
    intros j Hj. destruct (Nat.eq_dec j i) as [->|Hne].
    + now apply nameInUse_In.
    + apply Hbelow. lia.
  - injection H as <-. exists i. repeat split; [lia | | intros j Hj; lia].
    rewrite <- nameInUse_In, U. discriminate.
Qed.

(** The loop ends: among [length names + 1] distinct candidates one is not
    in use. *)
Lemma createRouteName_loop_returns names r i :
  exists n, createRouteName_loop (S (length names)) names r i = Some n.
Proof.
  destruct (createRouteName_loop (S (length names)) names r i) as [n|] eqn:H.
  - now exists n.
  - exfalso.
    pose proof (createRouteName_loop_None _ _ _ _ H) as Hall.
    assert (Hincl : incl (map (candidateName r) (seq i (S (length names)))) names).
    { intros x Hx. apply in_map_iff in Hx as (j & <- & Hj).
      apply in_seq in Hj. apply Hall. lia. }
    assert (Hnd : List.NoDup (map (candidateName r) (seq i (S (length names))))).
    { apply Injective_map_NoDup; [|apply seq_NoDup].
      intros a b. apply candidateName_inj. }
    pose proof (List.NoDup_incl_length Hnd Hincl) as Hlen.
    rewrite length_map, length_seq in Hlen. lia.
Qed.

Lemma findByName_None h n ls :
  findByName h n ls = None <->
  ~ In n (map layerName (omap (fun l => h !! l) ls)).
Proof.
  induction ls as [|l ls IH]; simpl; [tauto|].
  destruct (h !! l) as [L|]; simpl; [|exact IH].
  destruct (String.eqb (layerName L) n) eqn:E.
  - apply String.eqb_eq in E. split; [discriminate | tauto].
  - apply String.eqb_neq in E. rewrite IH. tauto.
Qed.

Lemma isNameAvailable_true s n :
  isNameAvailable s (Some n) = true <-> ~ In n (routeNames s) /\ n <> "".
Proof.
  unfold isNameAvailable, getRouteByName.
  destruct (findByName (heap s) n (routes s)) eqn:F.
  - split; [discriminate|]. intros [H _]. apply findByName_None in H. congruence.
  - apply findByName_None in F. rewrite negb_true_iff, String.eqb_neq. tauto.
Qed.

(** What [createRouteName] returns: the stripped base followed by the
    smallest index from 1 whose candidate no route bears; the result is
    available. *)
Lemma createRouteName_spec s base :
  let r := stripNumber (default (route (resourcesService s)) base) in
  exists k, 1 <= k /\
    createRouteName s base = candidateName r k /\
    ~ In (candidateName r k) (routeNames s) /\
    (forall j, 1 <= j < k -> In (candidateName r j) (routeNames s)) /\
    isNameAvailable s (Some (createRouteName s base)) = true.
Proof.
  intros r. unfold createRouteName. fold r.
  destruct (createRouteName_loop_returns (routeNames s) r 1) as (n & Hn).
  rewrite Hn.
  destruct (createRouteName_loop_Some _ _ _ _ _ Hn) as (k & Hk & -> & Hfree & Hbelow).
  exists k. repeat split; try assumption.
  apply isNameAvailable_true. split; [exact Hfree | apply candidateName_nonempty].
Qed.

(** Example of section 8: with "Route 1" and "Route 2" in the collection,
    the name created from "Route" is "Route 3". *)
Example createRouteName_Route_3 :
  let s := callAll Sample.distance Sample.iconTypes
             [AddRoute (Sample.routeNamed "Route 1" [] []);
              AddRoute (Sample.routeNamed "Route 2" [] [])] Sample.empty in
  createRouteName s (Some "Route") = "Route 3" /\
  createRouteName s None = "Route 3" /\
  createRouteName s (Some "Route 2") = "Route 3".
Proof. repeat split; reflexivity. Qed.

(** C3 (the code departs from the claim): the pattern of [createRouteName]
    is not anchored at the end of the name, so a number inside the name is
    stripped as well.  With a route "Day 2 morning" in the collection, the
    name created from "Day 2 morning", which has no trailing number, is
    "Day morning 1" and not "Day 2 morning 1"; this is the name an imported
    route "Day 2 morning" receives. *)
Theorem createRouteName_strips_inner_number :
  let s := final (addRoute (Sample.routeNamed "Day 2 morning" [] []) Sample.empty) in
  stripNumber "Day 2 morning" = "Day morning" /\
  createRouteName s (Some "Day 2 morning") = "Day morning 1" /\
  createRouteName s (Some "Day 2 morning") <> candidateName "Day 2 morning" 1 /\
  routeNames
    (final (setData Sample.iconTypes
              (Some [RouteData.mk (Some "Day 2 morning") [Sample.s1] []]) s))
  = ["Day 2 morning"; "Day morning 1"].
Proof. repeat split; try reflexivity. vm_compute. discriminate. Qed.

(** C1 (the code departs from the claim): [addRoute] appends the layer under
    the name it is given, without the renaming that [addLayersToMap] does;
    two calls with the same name leave two routes of that name. *)
Theorem addRoute_keeps_colliding_name :
  let r := Sample.routeNamed "Route 1" [] [] in
  let s := callAll Sample.distance Sample.iconTypes [AddRoute r; AddRoute r] Sample.empty in
  routeNames s = ["Route 1"; "Route 1"] /\ ~ List.NoDup (routeNames s).
Proof.
  split; [reflexivity|].
  intros H. change (List.NoDup ["Route 1"; "Route 1"]) in H.
  inversion H as [|x l Hx _]. apply Hx. now left.
Qed.

(** ** Import *)

(** C10: [setData] called with null or with an empty list returns at once:
    the state (collection, selection, every route's segments and markers) is
    the one it was called in. *)
Theorem setData_null_or_empty (availableIconTypes : list string) (s : RoutesService) :
  setData availableIconTypes None s = Returned tt s /\
  setData availableIconTypes (Some []) s = Returned tt s.
Proof. split; reflexivity. Qed.

(** Symbolic execution of a call: the primitives of the monad and the
    fields of the state are computed, nothing else is unfolded. *)
Ltac exec :=
  cbv beta iota zeta delta
    [bind get modify update emit ret throw orThrow deref pushRoute alloc
     freshSid final];
  cbn [set_heap set_routes set_selectedRoute set_events set_nextSid
       heap routes selectedRoute events nextSid resourcesService].

Lemma lookup_alter_same {A} (f : A -> A) (h : list A) (l : nat) (x : A) :
  h !! l = Some x -> alter f l h !! l = Some (f x).
Proof. intros H. rewrite list_lookup_alter_eq, H. reflexivity. Qed.

(** C9: [setData] with one route that has no segments, while the collection
    is not empty, appends that route's markers (their icon type normalised
    by [setData]) to the markers of the selected route, or of the first
    route of the collection when none is selected; the target is hidden and
    then put back in the edit mode it had; no route is added. *)
Theorem setData_markers_only (availableIconTypes : list string)
    (s : RoutesService) (d : RouteData.t) (target : loc) (T : RouteLayer.t) :
  RouteData.segments d = [] ->
  routes s <> [] ->
  selectedRoute s = Some target \/
    (selectedRoute s = None /\ head (routes s) = Some target) ->
  heap s !! target = Some T ->
  exists s' T',
    setData availableIconTypes (Some [d]) s = Returned tt s' /\
    routes s' = routes s /\
    length (heap s') = length (heap s) /\
    selectedRoute s' = Some target /\
    heap s' !! target = Some T' /\
    layerMarkers T' =
      layerMarkers T ++ map (normalizeType availableIconTypes) (RouteData.markers d) /\
    layerSegments T' = layerSegments T /\
    layerName T' = layerName T /\
    RouteLayer.getEditMode T' = RouteLayer.getEditMode T /\
    RouteLayer.state T' <> Hidden /\
    (forall l, l <> target -> heap s' !! l = heap s !! l).
Proof.
  intros Hseg Hne Hsel HT.
  assert (Hlen : (0 <? length (routes s)) = true).
  { destruct (routes s); [congruence | reflexivity]. }
  unfold setData, routesJsonToRoutesObject, addLayersToMap. simpl.
  exec. rewrite Hseg. simpl. rewrite Hlen.
  unfold addMarkersToSelected. exec.
  assert (Hrun : forall s0, heap s0 = heap s -> routes s0 = routes s ->
            selectedRoute s0 = Some target ->
            exists s' T',
              (let! s1 := get in
               let! sel := orThrow (selectedRoute s1) in
               let! L := deref sel in
               update sel RouteLayer.setHiddenState >>
               update sel (fun L0 => setLayerMarkers
                  (layerMarkers L0 ++
                   RouteData.markers (normalizeMarkers availableIconTypes d)) L0) >>
               update sel (RouteLayer.setEditMode (RouteLayer.getEditMode L))) s0
              = Returned tt s' /\
              routes s' = routes s /\ length (heap s') = length (heap s) /\
              selectedRoute s' = Some target /\ heap s' !! target = Some T' /\
              layerMarkers T' = layerMarkers T ++
                map (normalizeType availableIconTypes) (RouteData.markers d) /\
              layerSegments T' = layerSegments T /\ layerName T' = layerName T /\
              RouteLayer.getEditMode T' = RouteLayer.getEditMode T /\
              RouteLayer.state T' <> Hidden /\
              (forall l, l <> target -> heap s' !! l = heap s !! l)).
  { intros s0 Hh Hr Hs. exec. rewrite Hs. exec. rewrite Hh, HT. exec.
    eexists _, _. split; [reflexivity|]. exec.
    rewrite !length_alter.
    split; [assumption|]. split; [congruence|]. split; [assumption|].
    split.
    { erewrite lookup_alter_same; [reflexivity|].
      erewrite lookup_alter_same; [reflexivity|].
      erewrite lookup_alter_same; [reflexivity|]. rewrite Hh. exact HT. }
    cbn. unfold normalizeMarkers. cbn.
    repeat split; try reflexivity; try discriminate.
    intros l Hl. rewrite !list_lookup_alter_ne by congruence. now rewrite Hh. }
  destruct Hsel as [H | [H1 H2]].
  - destruct (Hrun s) as (s' & T' & E & Hrest); auto.
    exists s', T'. split; [|exact Hrest].
    exec. rewrite H. exact E.
  - destruct (Hrun (set_selectedRoute (head (routes s)) s)) as (s' & T' & E & Hrest); auto.
    exists s', T'. split; [|exact Hrest].
    exec. rewrite H1. exact E.
Qed.

(** ** Removal *)

Lemma routeNames_namesOf s : routeNames s = namesOf (heap s) (routes s).
Proof. reflexivity. Qed.

Lemma namesOf_app h a b : namesOf h (a ++ b) = namesOf h a ++ namesOf h b.
Proof. unfold namesOf. now rewrite omap_app, map_app. Qed.

Lemma namesOf_cons_Some h l ls L :
  h !! l = Some L -> namesOf h (l :: ls) = layerName L :: namesOf h ls.
Proof. intros H. unfold namesOf. simpl. now rewrite H. Qed.

Lemma namesOf_alter (f : RouteLayer.t -> RouteLayer.t) h l ls :
  (forall L, layerName (f L) = layerName L) ->
  namesOf (alter f l h) ls = namesOf h ls.
Proof.
  intros Hf. unfold namesOf. induction ls as [|x ls IH]; [reflexivity|].
  simpl. destruct (decide (l = x)) as [->|Hne].
  - rewrite list_lookup_alter_eq.
    destruct (h !! x); simpl; [|exact IH]. f_equal; [apply Hf | exact IH].
  - rewrite list_lookup_alter_ne by exact Hne.
    destruct (h !! x); simpl; [|exact IH]. f_equal. exact IH.
Qed.

Lemma findByName_Some h n ls l :
  findByName h n ls = Some l ->
  exists pre post L,
    ls = pre ++ l :: post /\ h !! l = Some L /\ layerName L = n /\
    ~ In n (namesOf h pre) /\ ~ In l pre.
Proof.
  induction ls as [|x ls IH]; simpl; [discriminate|].
  destruct (h !! x) as [X|] eqn:HX.
  - destruct (String.eqb (layerName X) n) eqn:E.
    + intros [= ->]. apply String.eqb_eq in E.
      exists [], ls, X. simpl. tauto.
    + intros H. destruct (IH H) as (pre & post & L & -> & HL & Hn & Hpre & Hl).
      apply String.eqb_neq in E.
      exists (x :: pre), post, L. rewrite (namesOf_cons_Some _ _ _ _ HX).
      repeat split; try assumption.
      * simpl. intros [H1 | H1]; [congruence | exact (Hpre H1)].
      * simpl. intros [H1 | H1]; [|exact (Hl H1)]. subst. congruence.
  - intros H. destruct (IH H) as (pre & post & L & -> & HL & Hn & Hpre & Hl).
    exists (x :: pre), post, L. repeat split; try assumption.
    + unfold namesOf in *. simpl. now rewrite HX.
    + simpl. intros [H1 | H1]; [|exact (Hl H1)]. subst. congruence.
Qed.

Lemma indexOfFrom_first {A} (same : A -> bool) (i : Z) pre y post :
  (forall x, In x pre -> same x = false) -> same y = true ->
  indexOfFrom same i (pre ++ y :: post) = (i + Z.of_nat (length pre))%Z.
Proof.
  revert i. induction pre as [|x pre IH]; intros i Hpre Hy; simpl.
  - rewrite Hy. lia.
  - rewrite (Hpre x) by now left.
    rewrite IH; [lia | | exact Hy]. intros z Hz. apply Hpre. now right.
Qed.

Lemma indexOfFrom_absent {A} (same : A -> bool) (i : Z) l :
  (forall x, In x l -> same x = false) -> indexOfFrom same i l = (-1)%Z.
Proof.
  revert i. induction l as [|x l IH]; intros i H; simpl; [reflexivity|].
  rewrite (H x) by now left. apply IH. intros z Hz. apply H. now right.
Qed.

Lemma spliceStart_nat (n len : nat) : n <= len -> spliceStart (Z.of_nat n) len = n.
Proof.
  intros H. unfold spliceStart.
  destruct (Z.ltb_spec (Z.of_nat n) 0); [lia|]. rewrite Nat2Z.id. lia.
Qed.

Lemma spliceOne_middle {A} (pre : list A) x post :
  spliceOne (Z.of_nat (length pre)) (pre ++ x :: post) = pre ++ post.
Proof.
  unfold spliceOne. rewrite spliceStart_nat by (rewrite length_app; lia).
  rewrite take_app_length.
  change (S (length pre)) with (1 + length pre). rewrite Nat.add_comm.
  rewrite <- drop_drop, drop_app_length. reflexivity.
Qed.

Lemma spliceFrom_middle {A} (pre post : list A) :
  spliceFrom (Z.of_nat (length pre)) (pre ++ post) = (pre, post).
Proof.
  unfold spliceFrom. rewrite spliceStart_nat by (rewrite length_app; lia).
  now rewrite take_app_length, drop_app_length.
Qed.

Lemma indexOfLoc_first l pre post :
  ~ In l pre -> indexOfLoc l (pre ++ l :: post) = Z.of_nat (length pre).
Proof.
  intros H. unfold indexOfLoc. rewrite indexOfFrom_first; [lia | | apply Nat.eqb_refl].
  intros x Hx. apply Nat.eqb_neq. intros ->. exact (H Hx).
Qed.

Lemma sameRef_true o l : sameRef o l = true <-> o = Some l.
Proof.
  destruct o as [x|]; simpl; [|split; discriminate].
  rewrite Nat.eqb_eq. split; congruence.
Qed.

(** What [selectRoute] does, in one equation. *)
Lemma selectRoute_run r s :
  selectRoute r s =
  Returned tt
    (set_events (events s ++ [RouteChanged r])
       (set_selectedRoute r
          (match selectedRoute s with
           | Some old => set_heap (alter RouteLayer.setReadOnlyState old (heap s)) s
           | None => s
           end))).
Proof. unfold selectRoute. exec. destruct (selectedRoute s); reflexivity. Qed.

(** [removeRoute] in a state whose route names are pairwise distinct. *)
Lemma removeRoute_found (s : RoutesService) (routeName : string) :
  List.NoDup (routeNames s) ->
  (~ In routeName (routeNames s) -> removeRoute routeName s = Returned tt s) /\
  (In routeName (routeNames s) ->
   exists l L pre post s',
     getRouteByName s routeName = Some l /\
     heap s !! l = Some L /\ layerName L = routeName /\
     routes s = pre ++ l :: post /\
     removeRoute routeName s = Returned tt s' /\
     routes s' = pre ++ post /\
     ~ In routeName (routeNames s') /\
     (forall ls, namesOf (heap s') ls = namesOf (heap s) ls) /\
     (selectedRoute s = Some l ->
        selectedRoute s' = None /\
        events s' = events s ++ [RouteChanged None; MapRemoveLayer l]) /\
     (selectedRoute s <> Some l ->
        selectedRoute s' = selectedRoute s /\ heap s' = heap s /\
        events s' = events s ++ [MapRemoveLayer l])).
Proof.
  intros Hnd. split.
  - intros Hn. apply findByName_None in Hn.
    unfold removeRoute. exec. unfold getRouteByName. now rewrite Hn.
  - intros Hin.
    destruct (getRouteByName s routeName) as [l|] eqn:F;
      [|apply findByName_None in F; contradiction].
    destruct (findByName_Some _ _ _ _ F) as (pre & post & L & Hr & HL & Hname & Hpre & Hl).
    assert (Hfree : ~ In routeName (namesOf (heap s) (pre ++ post))).
    { rewrite routeNames_namesOf, Hr in Hnd.
      rewrite namesOf_app, (namesOf_cons_Some _ _ _ _ HL), Hname in Hnd.
      rewrite namesOf_app. exact (NoDup_remove_2 _ _ _ Hnd). }
    exists l, L, pre, post.
    unfold removeRoute. exec. rewrite F.
    destruct (sameRef (selectedRoute s) l) eqn:S.
    + apply sameRef_true in S. exec. rewrite selectRoute_run, S. exec.
      eexists. split; [reflexivity|]. exec.
      rewrite Hr, indexOfLoc_first, spliceOne_middle by assumption.
      repeat split; try assumption; try reflexivity.
      * rewrite routeNames_namesOf. exec.
        rewrite namesOf_alter by reflexivity. exact Hfree.
      * intros ls. now apply namesOf_alter.
      * now rewrite <- app_assoc.
      * congruence.
      * congruence.
      * congruence.
    + exec. eexists. split; [reflexivity|]. exec.
      rewrite Hr, indexOfLoc_first, spliceOne_middle by assumption.
      assert (selectedRoute s <> Some l).
      { intros E. apply sameRef_true in E. congruence. }
      repeat split; try assumption; try reflexivity; try contradiction.
Qed.

(** C8 (as amended): in a state whose route names are pairwise distinct,
    [removeRoute name] changes nothing when no route bears the name; when a
    route does, the call returns, and if that route is the selection the
    selection is first set to null (the change is notified with nothing
    selected, no other route is promoted), then the layer is detached from
    the map and taken out of the collection, after which no route of the
    collection bears the name. *)
Theorem removeRoute_distinct_names (s : RoutesService) (routeName : string) :
  List.NoDup (routeNames s) ->
  (~ In routeName (routeNames s) -> removeRoute routeName s = Returned tt s) /\
  (In routeName (routeNames s) ->
   exists l L pre post s',
     getRouteByName s routeName = Some l /\
     heap s !! l = Some L /\ layerName L = routeName /\
     routes s = pre ++ l :: post /\
     removeRoute routeName s = Returned tt s' /\
     routes s' = pre ++ post /\
     ~ In routeName (routeNames s') /\
     (selectedRoute s = Some l ->
        selectedRoute s' = None /\
        events s' = events s ++ [RouteChanged None; MapRemoveLayer l]) /\
     (selectedRoute s <> Some l ->
        selectedRoute s' = selectedRoute s /\ heap s' = heap s /\
        events s' = events s ++ [MapRemoveLayer l])).
Proof.
  intros Hnd. destruct (removeRoute_found s routeName Hnd) as [Hnone Hsome].
  split; [exact Hnone|]. intros Hin.
  destruct (Hsome Hin) as (l & L & pre & post & s' & H1 & H2 & H3 & H4 & H5 & H6 & H7 & _ & H8 & H9).
  exists l, L, pre, post, s'. repeat split; try assumption; first [apply H8 | apply H9]; assumption.
Qed.

(** The state above in which a route named twice is removed once: built by
    two calls of [addRoute], as in [addRoute_keeps_colliding_name]. *)
Lemma removeRoute_namesake_remains :
  let r := Sample.routeNamed "Route 1" [] [] in
  let s := callAll Sample.distance Sample.iconTypes [AddRoute r; AddRoute r] Sample.empty in
  let s' := final (removeRoute "Route 1" s) in
  selectedRoute s = Some 1 /\
  (exists L, heap s !! 1 = Some L /\ layerName L = "Route 1") /\
  In "Route 1" (routeNames s') /\ selectedRoute s' = Some 1.
Proof.
  repeat split.
  - eexists. split; reflexivity.
  - now left.
Qed.

Lemma removeRoute_distinct_names_witness :
  let s := callAll Sample.distance Sample.iconTypes
             [AddRoute (Sample.routeNamed "A" [] []);
              AddRoute (Sample.routeNamed "B" [] [])] Sample.empty in
  List.NoDup (routeNames s) /\
  (In "B" (routeNames s) ->
   exists l L pre post s',
     getRouteByName s "B" = Some l /\
     heap s !! l = Some L /\ layerName L = "B" /\
     routes s = pre ++ l :: post /\
     removeRoute "B" s = Returned tt s' /\
     routes s' = pre ++ post /\
     ~ In "B" (routeNames s') /\
     (selectedRoute s = Some l ->
        selectedRoute s' = None /\
        events s' = events s ++ [RouteChanged None; MapRemoveLayer l]) /\
     (selectedRoute s <> Some l ->
        selectedRoute s' = selectedRoute s /\ heap s' = heap s /\
        events s' = events s ++ [MapRemoveLayer l])).
Proof.
  assert (H : List.NoDup ["A"; "B"]).
  { repeat constructor; simpl; intuition discriminate. }
  split; [exact H|].
  apply (removeRoute_distinct_names
           (callAll Sample.distance Sample.iconTypes
              [AddRoute (Sample.routeNamed "A" [] []);
               AddRoute (Sample.routeNamed "B" [] [])] Sample.empty) "B").
  exact H.
Defined.

(** ** The closest route *)

Lemma Qltb_lt (a b : Q) : Qltb a b = true <-> (a < b)%Q.
Proof.
  unfold Qltb. rewrite negb_true_iff, <- not_true_iff_false, Qle_bool_iff.
  split; [apply Qnot_le_lt | apply Qlt_not_le].
Qed.

Lemma find_first_match {A} (f : A -> bool) (l : list A) :
  match List.find f l with
  | Some x => exists pre post, l = pre ++ x :: post /\ f x = true /\
                               forall y, In y pre -> f y = false
  | None => forall y, In y l -> f y = false
  end.
Proof.
  induction l as [|a l IH]; simpl; [tauto|].
  destruct (f a) eqn:Fa.
  - exists [], l. simpl. tauto.
  - destruct (List.find f l) as [x|].
    + destruct IH as (pre & post & -> & Fx & Hpre).
      exists (a :: pre), post. repeat split; [exact Fx|].
      intros y [<- | Hy]; [exact Fa | now apply Hpre].
    + intros y [<- | Hy]; [exact Fa | now apply IH].
Qed.

Lemma firstLatLng_firstPoint (R : RouteLayer.t) (s : RoutesService) :
  layerSegments R <> [] -> firstLatLng R s = Returned (firstPoint R) s.
Proof.
  unfold firstLatLng, firstPoint. destruct (layerSegments R); [congruence|reflexivity].
Qed.

Lemma isCandidate_true distanceTo s sel p l :
  isCandidate distanceTo s sel p l = true <->
  l <> sel /\
  exists R, heap s !! l = Some R /\ layerSegments R <> [] /\
    ((exists q, RouteLayer.getLastLatLng R = Some q /\
                (distanceTo q p < MERGE_THRESHOLD)%Q) \/
     (exists q, firstPoint R = Some q /\ (distanceTo q p < MERGE_THRESHOLD)%Q)).
Proof.
  unfold isCandidate, withinThreshold.
  destruct (heap s !! l) as [R|]; [|split; [discriminate | intros (_ & R & H & _); discriminate]].
  rewrite !andb_true_iff, orb_true_iff, !negb_true_iff, Nat.eqb_neq, Nat.eqb_neq.
  split.
  - intros [[H1 H2] H3]. split; [exact H1|]. exists R. split; [reflexivity|].
    split; [destruct (layerSegments R); [contradiction|discriminate]|].
    destruct H3 as [H3|H3]; [left|right].
    + destruct (RouteLayer.getLastLatLng R) as [q|]; [|discriminate].
      exists q. split; [reflexivity | now apply Qltb_lt].
    + destruct (firstPoint R) as [q|]; [|discriminate].
      exists q. split; [reflexivity | now apply Qltb_lt].
  - intros (H1 & R' & [= <-] & H2 & H3). repeat split; [exact H1 | |].
    + destruct (layerSegments R); [contradiction|discriminate].
    + destruct H3 as [(q & -> & H)|(q & -> & H)]; [left|right]; now apply Qltb_lt.
Qed.

(** On a collection whose routes have their end points, the loop of
    [getClosestRoute] is the search for the first candidate. *)
Lemma closestAmong_find distanceTo s sel L p ls :
  heap s !! sel = Some L ->
  (forall l, In l ls -> l <> sel ->
     exists R, heap s !! l = Some R /\
       (layerSegments R <> [] ->
        is_Some (RouteLayer.getLastLatLng R) /\ is_Some (firstPoint R))) ->
  closestAmong distanceTo sel (Some p) ls s =
  Returned (List.find (isCandidate distanceTo s sel p) ls) s.
Proof.
  intros HL. induction ls as [|l ls IH]; intros Hwf; [reflexivity|].
  assert (IH' := IH (fun x Hx => Hwf x (or_intror Hx))). clear IH.
  simpl. unfold isCandidate at 1. exec.
  destruct (Nat.eqb_spec l sel) as [->|Hne].
  - rewrite HL. exec. simpl. exact IH'.
  - destruct (Hwf l (or_introl eq_refl) Hne) as (R & HR & Hends).
    rewrite HR. exec. simpl.
    destruct (layerSegments R) as [|seg segs] eqn:Hsegs; [exact IH'|].
    simpl. destruct Hends as [[q Hq] [q' Hq']]; [discriminate|].
    unfold lastLatLng. rewrite Hq. exec. unfold distanceToJS. simpl.
    destruct (Qltb (distanceTo q p) MERGE_THRESHOLD); [reflexivity|].
    simpl. rewrite firstLatLng_firstPoint by (rewrite Hsegs; discriminate).
    rewrite Hq'. simpl.
    destruct (Qltb (distanceTo q' p) MERGE_THRESHOLD); [reflexivity|].
    exact IH'.
Qed.

(** C6: [getClosestRoute isFirst] compares the first point (when [isFirst])
    or the last point (otherwise) of the selected route with the last and
    the first point of every other route that has segments, and returns the
    first route of the collection, in collection order, one of whose two
    end points is at less than 50 meters; it returns null when every such
    end point is more than 50 meters away; it never returns the selected
    route; and it leaves the state as it is. *)
Theorem getClosestRoute_first_candidate (distanceTo : LatLng -> LatLng -> Q)
    (isFirst : bool) (s : RoutesService) (sel : loc) (L : RouteLayer.t) (p : LatLng) :
  selectedRoute s = Some sel ->
  heap s !! sel = Some L ->
  comparedEnd isFirst L = Some p ->
  (forall l, In l (routes s) -> l <> sel ->
     exists R, heap s !! l = Some R /\
       (layerSegments R <> [] ->
        is_Some (RouteLayer.getLastLatLng R) /\ is_Some (firstPoint R))) ->
  let r := firstCandidate distanceTo s sel p in
  getClosestRoute distanceTo isFirst s = Returned r s /\
  r <> Some sel /\
  match r with
  | Some l =>
      exists pre post, routes s = pre ++ l :: post /\
        isCandidate distanceTo s sel p l = true /\
        forall x, In x pre -> isCandidate distanceTo s sel p x = false
  | None => forall x, In x (routes s) -> isCandidate distanceTo s sel p x = false
  end /\
  ((forall l R q, In l (routes s) -> l <> sel -> heap s !! l = Some R ->
      RouteLayer.getLastLatLng R = Some q \/ firstPoint R = Some q ->
      (MERGE_THRESHOLD < distanceTo q p)%Q) ->
   r = None).
Proof.
  intros Hsel HL Hp Hwf r.
  assert (Hfirst := find_first_match (isCandidate distanceTo s sel p) (routes s)).
  fold (firstCandidate distanceTo s sel p) in Hfirst. fold r in Hfirst.
  split; [|split; [|split; [exact Hfirst|]]].
  - unfold getClosestRoute. exec. rewrite Hsel. exec. rewrite HL. exec.
    assert (Hend : endToCheck isFirst L s = Returned (Some p) s).
    { unfold endToCheck, comparedEnd in *. destruct isFirst.
      - unfold firstLatLng, firstPoint in *.
        destruct (layerSegments L); [discriminate|]. now rewrite Hp.
      - unfold lastLatLng. rewrite Hp. reflexivity. }
    rewrite Hend. now apply closestAmong_find with (L := L).
  - destruct r as [l|]; [|discriminate].
    destruct Hfirst as (_ & _ & _ & Hc & _).
    apply isCandidate_true in Hc. intros [= ->]. now destruct Hc.
  - intros Hfar. destruct r as [l|]; [exfalso|reflexivity].
    destruct Hfirst as (pre & post & Hr & Hc & _).
    apply isCandidate_true in Hc as (Hne & R & HR & _ & Hnear).
    assert (Hin : In l (routes s)) by (rewrite Hr; apply in_elt).
    destruct Hnear as [(q & Hq & Hlt)|(q & Hq & Hlt)].
    + apply (Qlt_irrefl MERGE_THRESHOLD).
      eapply Qlt_trans; [apply (Hfar l R q Hin Hne HR (or_introl Hq)) | exact Hlt].
    + apply (Qlt_irrefl MERGE_THRESHOLD).
      eapply Qlt_trans; [apply (Hfar l R q Hin Hne HR (or_intror Hq)) | exact Hlt].
Qed.

(** ** Split *)

(** Lookups in a store after updates and allocations. *)
Ltac solve_lookup :=
  repeat first
    [ eassumption
    | reflexivity
    | apply lookup_alter_same
    | rewrite list_lookup_alter_ne by (first [congruence | lia])
    | apply list_lookup_middle; rewrite ?length_alter; reflexivity
    | apply lookup_app_l_Some ].

Ltac simpl_lookup :=
  repeat first
    [ erewrite lookup_alter_same by solve_lookup
    | rewrite list_lookup_alter_ne by (first [congruence | lia])
    | rewrite list_lookup_middle by (rewrite ?length_alter; reflexivity)
    | erewrite lookup_app_l_Some by solve_lookup ].

(** The fields of a layer after the setters. *)
Ltac layer_simpl :=
  unfold layerSegments, layerMarkers, layerName in *;
  cbn [RouteLayer.setEditRouteState RouteLayer.setReadOnlyState
       RouteLayer.setHiddenState RouteLayer.setState RouteLayer.setEditMode
       RouteLayer.getEditMode RouteLayer.setRoute RouteLayer.reverse
       setLayerSegments setLayerMarkers set_segments set_markers
       RouteLayer.route RouteLayer.state RouteLayer.editMode
       IRoute.segments IRoute.markers IRoute.properties] in *.

Lemma importedLayer_segments s d :
  IRoute.segments (RouteLayer.route (importedLayer s d)) = RouteData.segments d.
Proof.
  unfold importedLayer. destruct (isNameAvailable s (RouteData.name d)); reflexivity.
Qed.

Lemma importedLayer_markers s d :
  IRoute.markers (RouteLayer.route (importedLayer s d)) = RouteData.markers d.
Proof.
  unfold importedLayer. destruct (isNameAvailable s (RouteData.name d)); reflexivity.
Qed.

Lemma importedLayer_state s d : RouteLayer.state (importedLayer s d) = Hidden.
Proof. reflexivity. Qed.

(** The body of the import loop, in one equation. *)
Lemma addLayerFromData_run d s :
  addLayerFromData d s =
  Returned tt
    {| resourcesService := resourcesService s;
       heap := match selectedRoute s with
               | Some old => alter RouteLayer.setReadOnlyState old
                               (heap s ++ [importedLayer s d])
               | None => heap s ++ [importedLayer s d]
               end;
       routes := routes s ++ [length (heap s)];
       selectedRoute := Some (length (heap s));
       nextSid := nextSid s;
       events := events s ++ [MapAddLayer (length (heap s));
                              RouteChanged (Some (length (heap s)))] |}.
Proof.
  unfold addLayerFromData. exec. rewrite selectRoute_run. exec.
  fold (importedLayer s d). rewrite <- app_assoc.
  destruct (selectedRoute s); reflexivity.
Qed.

(** [setData] with one route that has segments imports it as a new route. *)
Lemma setData_one_route icons d s :
  RouteData.segments d <> [] ->
  setData icons (Some [d]) s = addLayerFromData (normalizeMarkers icons d) s.
Proof.
  intros H. unfold setData, routesJsonToRoutesObject, addLayersToMap. simpl. exec.
  destruct (RouteData.segments d) eqn:E; [congruence|]. simpl.
  unfold addLayerFromData. exec.
  destruct (selectRoute _ _) as [[] ?|?]; reflexivity.
Qed.


Lemma spliceFrom_at {A} (l : list A) (i : nat) :
  i <= length l -> spliceFrom (Z.of_nat i) l = (take i l, drop i l).
Proof. intros H. unfold spliceFrom. now rewrite spliceStart_nat. Qed.

Lemma last_take_S {A} (l : list A) (i : nat) (x : A) :
  l !! i = Some x -> last (take (S i) l) = Some x.
Proof.
  intros H. rewrite last_lookup, length_take.
  assert (i < length l) by (apply lookup_lt_is_Some; eauto).
  replace (Nat.pred (S i `min` length l)) with i by lia.
  rewrite lookup_take_lt by lia. exact H.
Qed.

Lemma lastLatLng_run (R : RouteLayer.t) (p : LatLng) (s : RoutesService) :
  RouteLayer.getLastLatLng R = Some p -> lastLatLng R s = Returned p s.
Proof. intros H. unfold lastLatLng. now rewrite H. Qed.

Lemma getLastLatLng_setLayerSegments segs R :
  RouteLayer.getLastLatLng (setLayerSegments segs R) =
  match last segs with Some seg => last (latlngs seg) | None => None end.
Proof. reflexivity. Qed.

(** C4 (as amended): when the segment passed to [splitSelectedRouteAt] is
    found in the selected route at a position before the last one, the call
    returns; the selected route keeps the segments up to and including that
    one, and a new route is appended to the collection whose segments are a
    bridging segment followed by the segments after it.  The two segment
    counts add up to N+1; both points of the bridging segment are the end
    point of the shortened route, its routing type is that of the first
    segment after the split; and the end point of the shortened route is the
    last point the segment had before the split. *)
Theorem splitSelectedRouteAt_before_last (availableIconTypes : list string)
    (s : RoutesService) (sel : loc) (L : RouteLayer.t)
    (segment segAt next : RouteSegment) (i : nat) (p : LatLng) :
  selectedRoute s = Some sel ->
  heap s !! sel = Some L ->
  indexOfSegment segment (layerSegments L) = Z.of_nat i ->
  layerSegments L !! i = Some segAt ->
  layerSegments L !! S i = Some next ->
  last (latlngs segAt) = Some p ->
  exists s' A' B' bridge,
    splitSelectedRouteAt availableIconTypes segment s = Returned tt s' /\
    routes s' = routes s ++ [length (heap s)] /\
    heap s' !! sel = Some A' /\
    heap s' !! length (heap s) = Some B' /\
    layerSegments A' = take (S i) (layerSegments L) /\
    layerSegments B' = bridge :: drop (S i) (layerSegments L) /\
    length (layerSegments A') + length (layerSegments B') =
      length (layerSegments L) + 1 /\
    latlngs bridge = [p; p] /\
    routingType bridge = routingType next /\
    RouteLayer.getLastLatLng A' = Some p /\
    last (latlngs segAt) = RouteLayer.getLastLatLng A'.
Proof.
  intros Hsel HL Hidx Hat Hnext Hp.
  assert (Hi : S i < length (layerSegments L)) by (apply lookup_lt_is_Some; eauto).
  assert (Hlt : sel < length (heap s)) by (apply lookup_lt_is_Some; eauto).
  unfold splitSelectedRouteAt. exec. rewrite Hsel. exec. rewrite HL. exec.
  rewrite Hidx. replace (Z.of_nat i + 1)%Z with (Z.of_nat (S i)) by lia.
  rewrite spliceFrom_at by lia. exec.
  simpl_lookup. exec.
  assert (Hend : RouteLayer.getLastLatLng
            (setLayerSegments (take (S i) (layerSegments L))
               (RouteLayer.setHiddenState L)) = Some p).
  { rewrite getLastLatLng_setLayerSegments, (last_take_S _ _ _ Hat). exact Hp. }
  rewrite (lastLatLng_run _ _ _ Hend).
  assert (Hhead : head (drop (S i) (layerSegments L)) = Some next).
  { rewrite head_lookup, lookup_drop, Nat.add_0_r. exact Hnext. }
  rewrite Hhead. exec.
  rewrite setData_one_route by discriminate.
  rewrite addLayerFromData_run. exec. rewrite Hsel.
  eexists _, _, _, _. split; [reflexivity|]. exec.
  rewrite !length_alter.
  split; [reflexivity|].
  split; [solve_lookup|].
  split; [solve_lookup|].
  split; [reflexivity|].
  layer_simpl. rewrite importedLayer_segments. cbn [RouteData.segments normalizeMarkers].
  split; [reflexivity|].
  split; [rewrite length_take; cbn [length]; rewrite length_drop; lia|].
  cbn [latlngs routingType].
  repeat split; try exact Hend. now rewrite Hp.
Qed.

(** ** Rules for calls *)

Lemma triple_bind {A B} P (m : M A) (k : A -> M B) R Q X :
  triple P m R X -> (forall a, triple (R a) (k a) Q X) ->
  triple P (bind m k) Q X.
Proof.
  intros Hm Hk s Hs. unfold bind. specialize (Hm s Hs).
  destruct (m s) as [a s'|s']; [exact (Hk a s' Hm) | exact Hm].
Qed.

Lemma triple_weaken {A} (P P' : RoutesService -> Prop) (m : M A)
    (Q Q' : A -> RoutesService -> Prop) (X X' : RoutesService -> Prop) :
  triple P' m Q' X' ->
  (forall s, P s -> P' s) -> (forall a s, Q' a s -> Q a s) ->
  (forall s, X' s -> X s) ->
  triple P m Q X.
Proof.
  intros Hm HP HQ HX s Hs. specialize (Hm s (HP s Hs)).
  destruct (m s); auto.
Qed.

Lemma stable_bind {A B} P (m : M A) (k : A -> M B) :
  stable P m -> (forall a, stable P (k a)) -> stable P (bind m k).
Proof. intros Hm Hk. apply (triple_bind _ _ _ (fun _ => P)); assumption. Qed.

Lemma stable_ret {A} P (a : A) : stable P (ret a).
Proof. intros s Hs. exact Hs. Qed.

Lemma stable_throw {A} P : stable P (@throw A).
Proof. intros s Hs. exact Hs. Qed.

Lemma stable_get P : stable P get.
Proof. intros s Hs. exact Hs. Qed.

Lemma stable_orThrow {A} P (o : option A) : stable P (orThrow o).
Proof. destruct o; [apply stable_ret | apply stable_throw]. Qed.

Lemma stable_deref P l : stable P (deref l).
Proof. intros s Hs. unfold deref. destruct (heap s !! l); exact Hs. Qed.

Lemma stable_lastLatLng P R : stable P (lastLatLng R).
Proof. apply stable_orThrow. Qed.

Lemma stable_firstLatLng P R : stable P (firstLatLng R).
Proof.
  unfold firstLatLng. destruct (layerSegments R); [apply stable_throw | apply stable_ret].
Qed.

Lemma stable_distanceToJS P d a b : stable P (distanceToJS d a b).
Proof.
  unfold distanceToJS. destruct a, b; first [apply stable_ret | apply stable_throw].
Qed.

Lemma stable_modify P f : (forall s, P s -> P (f s)) -> stable P (modify f).
Proof. intros H s Hs. exact (H s Hs). Qed.

(** The readers of the state keep every assertion; [stable_steps] walks
    through a sequence of calls and leaves the calls that write. *)
Ltac stable_step :=
  lazymatch goal with
  | |- stable _ (ret _) => apply stable_ret
  | |- stable _ throw => apply stable_throw
  | |- stable _ get => apply stable_get
  | |- stable _ (orThrow _) => apply stable_orThrow
  | |- stable _ (deref _) => apply stable_deref
  | |- stable _ (lastLatLng _) => apply stable_lastLatLng
  | |- stable _ (firstLatLng _) => apply stable_firstLatLng
  | |- stable _ (distanceToJS _ _ _) => apply stable_distanceToJS
  | |- stable _ (bind _ _) => apply stable_bind; [|intros ?]
  | |- stable _ (if ?b then _ else _) => destruct b
  | |- stable _ (match ?o with Some _ => _ | None => _ end) => destruct o
  | |- stable _ (match ?l with [] => _ | _ :: _ => _ end) => destruct l
  end.

Ltac stable_steps := repeat stable_step.

Lemma stable_endToCheck P isFirst L : stable P (endToCheck isFirst L).
Proof. unfold endToCheck. stable_steps. Qed.

Lemma stable_closestAmong P d sel chk ls : stable P (closestAmong d sel chk ls).
Proof. induction ls as [|l ls IH]; simpl; stable_steps; exact IH. Qed.

Lemma stable_getClosestRoute P d isFirst : stable P (getClosestRoute d isFirst).
Proof.
  unfold getClosestRoute. stable_steps;
    first [apply stable_endToCheck | apply stable_closestAmong].
Qed.

(** A reader leaves the state as it is. *)
Lemma getClosestRoute_state d isFirst s :
  final (getClosestRoute d isFirst s) = s.
Proof.
  pose proof (stable_getClosestRoute (fun s' => s' = s) d isFirst s eq_refl) as H.
  destruct (getClosestRoute d isFirst s); exact H.
Qed.

(** ** Edit state *)

Lemma editInvariant_weaken o s : editInvariant o s -> editInvariant None s.
Proof. intros [H _]. split; [exact H | discriminate]. Qed.

Lemma triple_get_bind {B} P (k : RoutesService -> M B) Q X :
  (forall s0, triple (fun s => P s /\ s = s0) (k s0) Q X) ->
  triple P (bind get k) Q X.
Proof. intros H s Hs. exact (H s s (conj Hs eq_refl)). Qed.

Lemma stable_emit_edit o e : stable (editInvariant o) (emit e).
Proof. apply stable_modify. intros s H. exact H. Qed.

Lemma stable_pushRoute_edit o l : stable (editInvariant o) (pushRoute l).
Proof. apply stable_modify. intros s H. exact H. Qed.

Lemma stable_set_routes_edit o f :
  stable (editInvariant o) (modify (fun s => set_routes (f s) s)).
Proof. apply stable_modify. intros s H. exact H. Qed.

Lemma stable_freshSid_edit o : stable (editInvariant o) freshSid.
Proof. intros s H. exact H. Qed.

(** A method that puts no layer in Edit state keeps the invariant. *)
Lemma stable_update_edit o l f :
  (forall L, RouteLayer.state (f L) = Edit -> RouteLayer.state L = Edit) ->
  stable (editInvariant o) (update l f).
Proof.
  intros Hf. apply stable_modify. intros s [HE Hsel]. split; [|exact Hsel].
  intros x X. cbn [heap set_heap selectedRoute]. rewrite list_lookup_alter.
  destruct (decide (l = x)) as [->|Hne]; [|apply HE].
  destruct (heap s !! x) as [L0|] eqn:E0; [|discriminate].
  intros [= <-] HX. apply (HE x L0 E0). now apply Hf.
Qed.

(** Any method of the selected layer keeps the invariant. *)
Lemma stable_update_selected sel f :
  stable (editInvariant (Some sel)) (update sel f).
Proof.
  apply stable_modify. intros s [HE Hsel]. split; [|exact Hsel].
  intros x X. cbn [heap set_heap selectedRoute]. rewrite list_lookup_alter.
  destruct (decide (sel = x)) as [->|Hne]; [|apply HE].
  intros _ _. now apply Hsel.
Qed.

Lemma stable_alloc_edit o L :
  RouteLayer.state L <> Edit -> stable (editInvariant o) (alloc L).
Proof.
  intros HL s [HE Hsel]. split; [|exact Hsel].
  intros x X. cbn [heap set_heap selectedRoute]. intros Hx HX.
  apply lookup_app_Some in Hx as [Hx | [_ Hx]]; [exact (HE x X Hx HX)|].
  destruct (x - length (heap s)) as [|n]; [|discriminate].
  cbn in Hx. injection Hx as <-. contradiction.
Qed.

(** [selectRoute] demotes the layer that was selected: afterwards no layer
    is in Edit state. *)
Lemma selectRoute_no_edit r s :
  editOnlySelected s ->
  forall x X, heap (final (selectRoute r s)) !! x = Some X ->
              RouteLayer.state X <> Edit.
Proof.
  intros HE x X. rewrite selectRoute_run. exec.
  destruct (selectedRoute s) as [old|] eqn:Hs; exec.
  - rewrite list_lookup_alter. destruct (decide (old = x)) as [->|Hne].
    + destruct (heap s !! x); [|discriminate]. intros [= <-]. discriminate.
    + intros Hx HX. apply Hne. specialize (HE x X Hx HX). congruence.
  - intros Hx HX. specialize (HE x X Hx HX). congruence.
Qed.

Lemma stable_selectRoute_edit r : stable (editInvariant None) (selectRoute r).
Proof.
  intros s [HE _].
  pose proof (selectRoute_no_edit r s HE) as Hno.
  rewrite selectRoute_run in *. exec. cbn [final] in Hno.
  split; [|discriminate]. intros x X Hx HX. exfalso. exact (Hno x X Hx HX).
Qed.

(** Inside [let sel = this.selectedRoute], the selection is known. *)
Lemma stable_selected {B} (k : RoutesService -> loc -> M B) :
  (forall s0 sel, stable (editInvariant (Some sel)) (k s0 sel)) ->
  stable (editInvariant None)
    (bind get (fun s => bind (orThrow (selectedRoute s)) (k s))).
Proof.
  intros Hk s Hs. exec.
  destruct (selectedRoute s) as [sel|] eqn:E; [|exact Hs].
  assert (Hin : editInvariant (Some sel) s).
  { split; [apply Hs|]. now intros l [= <-]. }
  specialize (Hk s sel s Hin).
  destruct (k s sel s); now apply editInvariant_weaken with (o := Some sel).
Qed.

Ltac no_edit :=
  let L := fresh "L" in
  intros L; cbn; first [discriminate | trivial].

(** One step through a call under the invariant.  Where the call reads
    [this.selectedRoute], the rest is first tried with the selection known. *)
Ltac edit_step :=
  lazymatch goal with
  | |- stable (editInvariant _) (emit _) => apply stable_emit_edit
  | |- stable (editInvariant _) (pushRoute _) => apply stable_pushRoute_edit
  | |- stable (editInvariant _) freshSid => apply stable_freshSid_edit
  | |- stable (editInvariant _) (modify (fun s => set_routes _ s)) =>
      apply stable_set_routes_edit
  | |- stable (editInvariant (Some ?l)) (update ?l _) => apply stable_update_selected
  | |- stable (editInvariant _) (update _ _) => apply stable_update_edit; no_edit
  | |- stable (editInvariant None) (selectRoute _) => apply stable_selectRoute_edit
  | |- stable (editInvariant _) (alloc _) => apply stable_alloc_edit; discriminate
  | |- stable (editInvariant _) (let '(_, _) := ?p in _) => destruct p
  | |- stable _ (getClosestRoute _ _) => apply stable_getClosestRoute
  | |- stable _ (endToCheck _ _) => apply stable_endToCheck
  | |- stable (editInvariant None)
         (bind get (fun s => bind (orThrow (selectedRoute s)) _)) =>
      first [ solve [apply stable_selected; intros ? ?; repeat edit_step]
            | apply stable_bind; [|intros ?] ]
  | |- _ => stable_step
  end.

Lemma stable_addRoute_edit route : stable (editInvariant None) (addRoute route).
Proof.
  intros s [HE _]. unfold addRoute. exec. rewrite selectRoute_run. exec.
  split; [|discriminate]. intros x X. exec.
  set (h := alter RouteLayer.setEditRouteState (length (heap s))
              (heap s ++ [RouteLayerFactory.createRouteLayer route])).
  assert (Hh : forall y Y, h !! y = Some Y -> RouteLayer.state Y = Edit ->
                 y <> length (heap s) -> selectedRoute s = Some y).
  { intros y Y Hy HY Hne. unfold h in Hy.
    rewrite list_lookup_alter_ne in Hy by congruence.
    apply lookup_app_Some in Hy as [Hy | [Hge Hy]]; [exact (HE y Y Hy HY)|].
    exfalso. destruct (y - length (heap s)) eqn:D; [lia|discriminate]. }
  destruct (Nat.eq_dec x (length (heap s))) as [->|Hne]; [reflexivity|].
  destruct (selectedRoute s) as [old|] eqn:Hs; exec.
  - rewrite list_lookup_alter. destruct (decide (old = x)) as [->|Hox].
    + destruct (h !! x); [|discriminate]. intros [= <-]. discriminate.
    + intros Hx HX. specialize (Hh x X Hx HX Hne). congruence.
  - intros Hx HX. specialize (Hh x X Hx HX Hne). congruence.
Qed.

Lemma stable_removeRoute_edit routeName :
  stable (editInvariant None) (removeRoute routeName).
Proof. unfold removeRoute. repeat edit_step. Qed.

Lemma stable_changeRouteState_edit l :
  stable (editInvariant None) (changeRouteState l).
Proof. unfold changeRouteState. repeat edit_step. Qed.

Lemma stable_addLayerFromData_edit d :
  stable (editInvariant None) (addLayerFromData d).
Proof. unfold addLayerFromData. repeat edit_step. Qed.

Lemma stable_addLayersFromData_edit rs :
  stable (editInvariant None) (addLayersFromData rs).
Proof.
  induction rs as [|d rs IH]; simpl; repeat edit_step;
    [apply stable_addLayerFromData_edit | exact IH].
Qed.

Lemma stable_addMarkersToSelected_edit d :
  stable (editInvariant None) (addMarkersToSelected d).
Proof.
  unfold addMarkersToSelected, stable. apply triple_get_bind. intros s0.
  apply triple_bind with (R := fun _ => editInvariant None).
  - intros s [[HE _] ->]. destruct (selectedRoute s0) as [l|] eqn:E; exec.
    + split; [exact HE | discriminate].
    + split; [|discriminate]. intros x X Hx HX.
      specialize (HE x X Hx HX). congruence.
  - intros _.
    match goal with |- triple ?P ?m _ _ => change (stable P m) end.
    repeat edit_step.
Qed.

Lemma stable_addLayersToMap_edit rs :
  stable (editInvariant None) (addLayersToMap rs).
Proof.
  unfold addLayersToMap. repeat edit_step;
    first [apply stable_addMarkersToSelected_edit | apply stable_addLayersFromData_edit].
Qed.

Lemma stable_setData_edit icons rs : stable (editInvariant None) (setData icons rs).
Proof.
  unfold setData. repeat edit_step; apply stable_addLayersToMap_edit.
Qed.

Lemma stable_splitSelectedRouteAt_edit icons segment :
  stable (editInvariant None) (splitSelectedRouteAt icons segment).
Proof.
  unfold splitSelectedRouteAt.
  repeat first [apply stable_setData_edit | edit_step].
Qed.

Lemma stable_mergeSelectedRouteToClosest_edit d isFirst :
  stable (editInvariant None) (mergeSelectedRouteToClosest d isFirst).
Proof.
  unfold mergeSelectedRouteToClosest.
  repeat first [apply stable_removeRoute_edit | edit_step].
Qed.

Lemma stable_call_edit d icons op : stable (editInvariant None) (call d icons op).
Proof.
  destruct op; simpl.
  - apply stable_addRoute_edit.
  - apply stable_removeRoute_edit.
  - apply stable_changeRouteState_edit.
  - apply stable_setData_edit.
  - apply stable_splitSelectedRouteAt_edit.
  - apply stable_mergeSelectedRouteToClosest_edit.
Qed.

Lemma callAll_edit d icons ops s :
  editInvariant None s -> editInvariant None (callAll d icons ops s).
Proof.
  revert s. induction ops as [|op ops IH]; intros s Hs; [exact Hs|].
  simpl. apply IH. pose proof (stable_call_edit d icons op s Hs) as H.
  destruct (call d icons op s); exact H.
Qed.

(** C7: after every sequence of calls of the manager (addRoute,
    removeRoute, changeRouteState, setData, splitSelectedRouteAt,
    mergeSelectedRouteToClosest), whether they return or throw, a layer in
    Edit state is the selected one, so at most one layer of the collection
    is in Edit state; and selecting a layer demotes the layer selected
    before to ReadOnly. *)
Theorem at_most_one_edit (distanceTo : LatLng -> LatLng -> Q)
    (availableIconTypes : list string) (res : ResourcesService) (ops : list Op) :
  let s := callAll distanceTo availableIconTypes ops (constructor res) in
  editOnlySelected s /\
  (forall l1 l2 L1 L2,
     In l1 (routes s) -> In l2 (routes s) ->
     heap s !! l1 = Some L1 -> heap s !! l2 = Some L2 ->
     RouteLayer.state L1 = Edit -> RouteLayer.state L2 = Edit -> l1 = l2) /\
  (forall r old L,
     selectedRoute s = Some old -> heap s !! old = Some L ->
     let s' := final (selectRoute r s) in
     selectedRoute s' = r /\
     heap s' !! old = Some (RouteLayer.setReadOnlyState L) /\
     forall x X, heap s' !! x = Some X -> RouteLayer.state X <> Edit).
Proof.
  intros s.
  assert (Hinv : editInvariant None s).
  { apply callAll_edit. split; [|discriminate]. intros l L Hl. discriminate. }
  destruct Hinv as [HE _]. split; [exact HE|]. split.
  - intros l1 l2 L1 L2 _ _ H1 H2 E1 E2.
    pose proof (HE l1 L1 H1 E1). pose proof (HE l2 L2 H2 E2). congruence.
  - intros r old L Hsel Hold s'. split; [|split].
    + unfold s'. rewrite selectRoute_run. reflexivity.
    + unfold s'. rewrite selectRoute_run, Hsel. exec.
      now apply lookup_alter_same.
    + apply selectRoute_no_edit. exact HE.
Qed.

(** ** Merge *)

(** Running the first call of a sequence. *)
Lemma bind_eq {A B} (m : M A) (k : A -> M B) s a s' :
  m s = Returned a s' -> bind m k s = k a s'.
Proof. intros H. unfold bind. now rewrite H. Qed.

Lemma bind_thrown {A B} (m : M A) (k : A -> M B) s s' :
  m s = Thrown s' -> bind m k s = Thrown s'.
Proof. intros H. unfold bind. now rewrite H. Qed.

Lemma deref_run l L s : heap s !! l = Some L -> deref l s = Returned L s.
Proof. intros H. unfold deref. now rewrite H. Qed.

Lemma stable_final {A} P (m : M A) s : stable P m -> P s -> P (final (m s)).
Proof. intros H Hs. specialize (H s Hs). destruct (m s); exact H. Qed.

Ltac fields :=
  cbn [set_heap set_routes set_selectedRoute set_events set_nextSid
       heap routes selectedRoute events nextSid resourcesService].

(** [run tac]: the first call of the sequence returns, which [tac] shows. *)
Lemma bind_assoc {A B C} (m : M A) (f : A -> M B) (g : B -> M C) s :
  bind (bind m f) g s = bind m (fun a => bind (f a) g) s.
Proof. unfold bind. destruct (m s); reflexivity. Qed.

Ltac run tac := rewrite ?bind_assoc; erewrite bind_eq by tac; cbv beta; fields.
Ltac run_pure := run ltac:(reflexivity).
Ltac run_deref := run ltac:(apply deref_run; fields; solve_lookup).

Lemma In_namesOf h l ls L :
  In l ls -> h !! l = Some L -> In (layerName L) (namesOf h ls).
Proof.
  intros Hin HL. induction ls as [|x ls IH]; [contradiction|].
  destruct Hin as [->|Hin].
  - rewrite (namesOf_cons_Some _ _ _ _ HL). now left.
  - unfold namesOf in *. simpl. destruct (h !! x); simpl; auto.
Qed.

(** A route returned by the loop of [getClosestRoute] is in the collection
    and is not the selected one. *)
Lemma closestAmong_Some d sel chk ls s l s' :
  closestAmong d sel chk ls s = Returned (Some l) s' ->
  In l ls /\ l <> sel.
Proof.
  induction ls as [|x ls IH]; simpl; [discriminate|].
  unfold lastLatLng, firstLatLng, distanceToJS. exec.
  destruct (heap s !! x) as [R|]; [|discriminate].
  destruct (Nat.eqb_spec x sel) as [->|Hne]; cbn [orb].
  { intros H. destruct (IH H). auto. }
  repeat (cbv beta iota;
          match goal with
          | |- Thrown _ = Returned _ _ -> _ => discriminate
          | |- Returned (Some _) _ = Returned (Some _) _ -> _ =>
              intros [= -> _]; auto
          | |- closestAmong _ _ _ _ _ = _ -> _ =>
              let H := fresh in intros H; destruct (IH H); auto
          | |- context [match ?x with _ => _ end] =>
              lazymatch x with
              | context [match _ with _ => _ end] => fail
              | _ => destruct x
              end
          end).
Qed.

Lemma getClosestRoute_Some d isFirst s sel l s' :
  selectedRoute s = Some sel ->
  getClosestRoute d isFirst s = Returned (Some l) s' ->
  In l (routes s) /\ l <> sel.
Proof.
  intros Hsel. unfold getClosestRoute. exec. rewrite Hsel. exec.
  destruct (heap s !! sel) as [L|]; [|discriminate].
  destruct (endToCheck isFirst L s) as [chk s1|] eqn:E; [|discriminate].
  assert (s1 = s) as ->.
  { pose proof (stable_endToCheck (fun x => x = s) isFirst L s eq_refl) as H.
    now rewrite E in H. }
  apply closestAmong_Some.
Qed.

Lemma stable_emit_merged h0 rs sel ms e : stable (mergedInto h0 rs sel ms) (emit e).
Proof. apply stable_modify. intros s H. exact H. Qed.

(** A method of the selected layer that keeps its name and its markers. *)
Lemma stable_update_merged_selected h0 rs sel ms f :
  (forall L, layerName (f L) = layerName L) ->
  (forall L, layerMarkers (f L) = layerMarkers L) ->
  stable (mergedInto h0 rs sel ms) (update sel f).
Proof.
  intros Hn Hm. apply stable_modify. intros s (Hr & Hs & Hnames & S' & HS' & Hms).
  repeat split; fields; try assumption.
  - intros ls. rewrite namesOf_alter by exact Hn. apply Hnames.
  - exists (f S'). split; [now apply lookup_alter_same | now rewrite Hm].
Qed.

(** A method of another layer that keeps its name. *)
Lemma stable_update_merged_other h0 rs sel ms l f :
  l <> sel ->
  (forall L, layerName (f L) = layerName L) ->
  stable (mergedInto h0 rs sel ms) (update l f).
Proof.
  intros Hne Hn. apply stable_modify. intros s (Hr & Hs & Hnames & S' & HS' & Hms).
  repeat split; fields; try assumption.
  - intros ls. rewrite namesOf_alter by exact Hn. apply Hnames.
  - exists S'. split; [|exact Hms]. now rewrite list_lookup_alter_ne.
Qed.

Ltac merged_step :=
  lazymatch goal with
  | |- stable (mergedInto _ _ _ _) (emit _) => apply stable_emit_merged
  | |- stable (mergedInto _ _ ?sel _) (update ?sel _) =>
      apply stable_update_merged_selected; intros ?; reflexivity
  | |- stable (mergedInto _ _ _ _) (update _ _) =>
      apply stable_update_merged_other; [assumption | intros ?; reflexivity]
  | |- stable _ (endToCheck _ _) => apply stable_endToCheck
  | |- _ => stable_step
  end.

(** C5 (as amended): in a state whose route names are pairwise distinct and
    in which [getClosestRoute isFirst] returns a route, after
    [mergeSelectedRouteToClosest isFirst] (whether it returns or throws
    while joining the segments) the name of the absorbed route is no longer
    in the collection, the selection is unchanged, and the markers of the
    selected route are its markers followed by those of the absorbed route,
    so that their number is the sum of the two numbers. *)
Theorem mergeSelectedRouteToClosest_absorbs (distanceTo : LatLng -> LatLng -> Q)
    (isFirst : bool) (s : RoutesService) (sel closest : loc) (S C : RouteLayer.t) :
  List.NoDup (routeNames s) ->
  selectedRoute s = Some sel ->
  heap s !! sel = Some S ->
  getClosestRoute distanceTo isFirst s = Returned (Some closest) s ->
  heap s !! closest = Some C ->
  let s' := final (mergeSelectedRouteToClosest distanceTo isFirst s) in
  ~ In (layerName C) (routeNames s') /\
  ~ In closest (routes s') /\
  selectedRoute s' = Some sel /\
  exists S', heap s' !! sel = Some S' /\
    layerMarkers S' = layerMarkers S ++ layerMarkers C /\
    length (layerMarkers S') = length (layerMarkers S) + length (layerMarkers C).
Proof.
  intros Hnd Hsel HS Hget HC s'.
  destruct (getClosestRoute_Some _ _ _ _ _ _ Hsel Hget) as [Hin Hne].
  set (s1 := set_heap (alter RouteLayer.setHiddenState sel (heap s)) s).
  assert (Hnames1 : forall ls, namesOf (heap s1) ls = namesOf (heap s) ls).
  { intros ls. apply namesOf_alter. reflexivity. }
  assert (HC1 : heap s1 !! closest = Some C).
  { unfold s1. fields. now rewrite list_lookup_alter_ne by congruence. }
  assert (Hnd1 : List.NoDup (routeNames s1)).
  { rewrite routeNames_namesOf, Hnames1. exact Hnd. }
  assert (Hin1 : In (layerName C) (routeNames s1)).
  { rewrite routeNames_namesOf. apply In_namesOf with (l := closest); assumption. }
  destruct (removeRoute_found s1 (layerName C) Hnd1) as [_ Hrm].
  destruct (Hrm Hin1) as (l & L & pre & post & s2 & Hfind & HL & HLn & Hr & Hrun &
                          Hr2 & Hfree & Hnames2 & _ & Hkeep).
  assert (l = closest) as ->.
  { destruct (Nat.eq_dec l closest) as [E|E]; [exact E|]. exfalso.
    apply Hfree. rewrite routeNames_namesOf, Hr2, Hnames2.
    apply In_namesOf with (l := closest); [|exact HC1].
    change (routes s1) with (routes s) in Hr. rewrite Hr in Hin.
    apply in_app_or in Hin as [Hp | [Hp | Hp]]; [| congruence |];
      apply in_or_app; auto. }
  assert (Hsel1 : selectedRoute s1 <> Some closest).
  { unfold s1. fields. rewrite Hsel. congruence. }
  destruct (Hkeep Hsel1) as (Hsel2 & Hheap2 & _).
  assert (Hnotin : ~ In closest (pre ++ post)).
  { intros Hp. apply Hfree. rewrite routeNames_namesOf, Hr2, Hnames2.
    apply In_namesOf with (l := closest); assumption. }
  assert (Hfinal : mergedInto (heap s) (pre ++ post) sel
                     (layerMarkers S ++ layerMarkers C) s').
  { unfold s', mergeSelectedRouteToClosest.
    run ltac:(exact Hget). run_pure. rewrite Hsel. run_pure. run_pure. run_pure.
    fold s1. run ltac:(apply deref_run; exact HC1).
    run ltac:(exact Hrun).
    run ltac:(apply deref_run; rewrite Hheap2; exact HC1).
    run_pure. rewrite Hsel2. unfold s1 at 1. fields. rewrite Hsel. run_pure. run_pure.
    apply (stable_final (mergedInto (heap s) (pre ++ post) sel
                           (layerMarkers S ++ layerMarkers C))).
    - repeat merged_step.
    - repeat split; fields; try assumption.
      + rewrite Hsel2. unfold s1. fields. exact Hsel.
      + intros ls. rewrite namesOf_alter by reflexivity.
        rewrite Hnames2. apply Hnames1.
      + eexists. split.
        * apply lookup_alter_same. rewrite Hheap2. unfold s1. fields.
          apply lookup_alter_same. exact HS.
        * reflexivity. }
  destruct Hfinal as (Hr' & Hs' & Hn' & S' & HS' & Hm').
  repeat split.
  - change (routeNames s') with (namesOf (heap s') (routes s')).
    rewrite Hr', Hn'.
    rewrite routeNames_namesOf, Hr2, Hnames2, Hnames1 in Hfree. exact Hfree.
  - rewrite Hr'. exact Hnotin.
  - exact Hs'.
  - exists S'. repeat split; [exact HS' | exact Hm' |].
    rewrite Hm'. apply length_app.
Qed.

Lemma spliceOne_head {A} (x : A) (l : list A) : spliceOne 0 (x :: l) = l.
Proof. reflexivity. Qed.

Lemma Qltb_false (a b : Q) : Qltb a b = false <-> ~ (a < b)%Q.
Proof. rewrite <- Qltb_lt. destruct (Qltb a b); split; congruence. Qed.

Lemma endToCheck_last (L : RouteLayer.t) (p : LatLng) (s : RoutesService) :
  RouteLayer.getLastLatLng L = Some p ->
  endToCheck false L s = Returned (Some p) s.
Proof.
  intros H. unfold endToCheck. now rewrite (bind_eq _ _ _ _ _ (lastLatLng_run _ _ _ H)).
Qed.

(** C2 (as amended): the collection is [A, B], A is selected, B has a first
    segment b0 followed by s2 (and possibly more), the first point of B is
    at less than 50 meters from the last point of A, and the last point of
    B is not (the names of A and B differ).  Then
    [mergeSelectedRouteToClosest false] returns with the collection [A]
    alone: B is removed, B is not reversed, its first segment b0 is dropped,
    and the segments of A are its own segments, unchanged, followed by s2
    with the last point of A put in front of its points (and by the
    segments after s2); the markers of B follow those of A; A is in Edit
    state. *)
Theorem mergeSelectedRouteToClosest_end_to_start
    (distanceTo : LatLng -> LatLng -> Q) (s : RoutesService) (a b : loc)
    (A B : RouteLayer.t) (b0 s2 : RouteSegment) (rest : list RouteSegment)
    (pa pb pl : LatLng) :
  routes s = [a; b] ->
  a <> b ->
  selectedRoute s = Some a ->
  heap s !! a = Some A ->
  heap s !! b = Some B ->
  layerName A <> layerName B ->
  layerSegments B = b0 :: s2 :: rest ->
  RouteLayer.getLastLatLng A = Some pa ->
  head (latlngs b0) = Some pb ->
  RouteLayer.getLastLatLng B = Some pl ->
  (distanceTo pb pa < MERGE_THRESHOLD)%Q ->
  ~ (distanceTo pl pa < MERGE_THRESHOLD)%Q ->
  exists s' A',
    mergeSelectedRouteToClosest distanceTo false s = Returned tt s' /\
    routes s' = [a] /\
    selectedRoute s' = Some a /\
    heap s' !! a = Some A' /\
    layerSegments A' = layerSegments A ++ prependLatLng pa s2 :: rest /\
    layerMarkers A' = layerMarkers A ++ layerMarkers B /\
    layerName A' = layerName A /\
    RouteLayer.state A' = Edit.
Proof.
  intros Hr Hab Hsel HA HB Hnames HsegB HlastA Hpb HlastB Hnear Hfar.
  apply Qltb_lt in Hnear. apply Qltb_false in Hfar.
  assert (Hget : getClosestRoute distanceTo false s = Returned (Some b) s).
  { unfold getClosestRoute. run_pure. rewrite Hsel. run_pure.
    run ltac:(apply deref_run; exact HA).
    run ltac:(apply endToCheck_last; exact HlastA).
    rewrite (closestAmong_find distanceTo s a A pa (routes s) HA).
    - rewrite Hr. simpl. unfold isCandidate, withinThreshold, firstPoint.
      rewrite HA, HB, HsegB, HlastB, Hpb, Nat.eqb_refl. simpl.
      replace (b =? a) with false by (symmetry; apply Nat.eqb_neq; congruence).
      simpl. now rewrite Hfar, Hnear.
    - intros l Hl Hne. rewrite Hr in Hl.
      destruct Hl as [<-|[<-|[]]]; [congruence|].
      exists B. split; [exact HB|]. intros _. unfold firstPoint.
      rewrite HlastB, HsegB, Hpb. split; eauto. }
  unfold mergeSelectedRouteToClosest.
  run ltac:(exact Hget). run_pure. rewrite Hsel. run_pure. run_pure. run_pure.
  run_deref.
  assert (Hrm : forall s1, routes s1 = [a; b] -> selectedRoute s1 = Some a ->
            (exists A1, heap s1 !! a = Some A1 /\ layerName A1 = layerName A) ->
            heap s1 !! b = Some B ->
            removeRoute (layerName B) s1 =
            Returned tt (set_routes [a]
                           (set_events (events s1 ++ [MapRemoveLayer b]) s1))).
  { intros s1 Hr1 Hs1 (A1 & HA1 & HnA1) HB1. unfold removeRoute. run_pure.
    unfold getRouteByName. rewrite Hr1. simpl. rewrite HA1, HB1, HnA1.
    replace (layerName A =? layerName B)%string with false
      by (symmetry; now apply String.eqb_neq).
    rewrite String.eqb_refl. rewrite Hs1. simpl.
    replace (a =? b) with false by (symmetry; now apply Nat.eqb_neq).
    run_pure. run_pure. unfold modify. fields. rewrite Hr1.
    unfold indexOfLoc. simpl.
    replace (b =? a) with false by (symmetry; apply Nat.eqb_neq; congruence).
    rewrite Nat.eqb_refl. reflexivity. }
  run ltac:(apply Hrm; fields; [assumption | assumption | eexists; split; [solve_lookup | reflexivity] | solve_lookup]).
  run_deref. run_pure. rewrite Hsel. run_pure. run_pure.
  run_deref.
  run ltac:(apply endToCheck_last; exact HlastA).
  run_deref. run ltac:(apply lastLatLng_run; exact HlastB). run_pure.
  rewrite Hfar. run_pure. run_pure. run_deref.
  layer_simpl. rewrite HsegB, spliceOne_head.
  run_deref. run ltac:(apply lastLatLng_run; exact HlastA). run_pure. run_deref.
  run_pure.
  eexists _, _. split; [reflexivity|]. exec.
  split; [reflexivity|]. split; [exact Hsel|].
  split; [solve_lookup|].
  layer_simpl. repeat split; reflexivity.
Qed.

(** ** The claims on the sample states *)

(** The scenario of section 8 as it is written, one segment in each route:
    the call throws after B is removed, on the first segment of B that is no
    longer there; A keeps its one segment, untrimmed, and stays hidden. *)
Lemma mergeSelectedRouteToClosest_one_segment_throws :
  let s := Sample.oneSegmentEach in
  routes s = [0; 1] /\ selectedRoute s = Some 0 /\
  layerSegments (Sample.layer s 0) = [Sample.s1] /\
  layerSegments (Sample.layer s 1) = [Sample.s2] /\
  (Sample.distance (Sample.point 110 0) (Sample.point 100 0) < MERGE_THRESHOLD)%Q /\
  match mergeSelectedRouteToClosest Sample.distance false s with
  | Returned _ _ => False
  | Thrown s' =>
      routes s' = [0] /\
      layerSegments (Sample.layer s' 0) = [Sample.s1] /\
      RouteLayer.state (Sample.layer s' 0) = Hidden
  end.
Proof. vm_compute. repeat split; reflexivity. Qed.

Lemma mergeSelectedRouteToClosest_end_to_start_witness :
  exists s' A',
    mergeSelectedRouteToClosest Sample.distance false Sample.joinable = Returned tt s' /\
    routes s' = [0] /\
    selectedRoute s' = Some 0 /\
    heap s' !! 0 = Some A' /\
    layerSegments A' =
      [Sample.s1; prependLatLng (Sample.point 100 0) Sample.s2] /\
    layerMarkers A' =
      [Sample.marker "a" (Sample.point 0 0); Sample.marker "b" (Sample.point 300 0)] /\
    layerName A' = "A" /\
    RouteLayer.state A' = Edit.
Proof.
  apply (mergeSelectedRouteToClosest_end_to_start Sample.distance Sample.joinable
           0 1 (Sample.layer Sample.joinable 0) (Sample.layer Sample.joinable 1)
           Sample.b0 Sample.s2 []
           (Sample.point 100 0) (Sample.point 110 0) (Sample.point 300 0)).
  - reflexivity.
  - lia.
  - reflexivity.
  - reflexivity.
  - reflexivity.
  - vm_compute. discriminate.
  - reflexivity.
  - reflexivity.
  - reflexivity.
  - reflexivity.
  - vm_compute. reflexivity.
  - vm_compute. discriminate.
Defined.

(** Splitting at the last segment: there is no segment after it whose
    routing type the bridging segment could copy, and the call throws; no
    route is created and the route keeps its three segments. *)
Lemma splitSelectedRouteAt_last_throws :
  let s := Sample.threeSegments in
  selectedRoute s = Some 0 /\
  layerSegments (Sample.layer s 0) = [Sample.g1; Sample.g2; Sample.g3] /\
  match splitSelectedRouteAt Sample.iconTypes Sample.g3 s with
  | Returned _ _ => False
  | Thrown s' =>
      routes s' = [0] /\ length (heap s') = 1 /\
      length (layerSegments (Sample.layer s' 0)) = 3
  end.
Proof. vm_compute. repeat split; reflexivity. Qed.

Lemma splitSelectedRouteAt_before_last_witness :
  exists s' A' B' bridge,
    splitSelectedRouteAt Sample.iconTypes Sample.g2 Sample.threeSegments
      = Returned tt s' /\
    routes s' = [0; 1] /\
    heap s' !! 0 = Some A' /\
    heap s' !! 1 = Some B' /\
    layerSegments A' = [Sample.g1; Sample.g2] /\
    layerSegments B' = [bridge; Sample.g3] /\
    length (layerSegments A') + length (layerSegments B') = 3 + 1 /\
    latlngs bridge = [Sample.point 10 0; Sample.point 10 0] /\
    routingType bridge = routingType Sample.g3 /\
    RouteLayer.getLastLatLng A' = Some (Sample.point 10 0) /\
    last (latlngs Sample.g2) = RouteLayer.getLastLatLng A'.
Proof.
  apply (splitSelectedRouteAt_before_last Sample.iconTypes Sample.threeSegments 0
           (Sample.layer Sample.threeSegments 0)
           Sample.g2 Sample.g2 Sample.g3 1 (Sample.point 10 0));
    reflexivity.
Defined.

(** With two routes named "A", the first being selected and the second the
    closest: [removeRoute] takes the first route of that name, the selected
    one, out of the collection, and the call throws on the selection that
    is now null; the absorbed route and its name are still in the
    collection and no route has received its markers. *)
Lemma mergeSelectedRouteToClosest_namesake_remains :
  let s := Sample.namesakes in
  getClosestRoute Sample.distance false s = Returned (Some 1) s /\
  layerName (Sample.layer s 1) = "A" /\
  let s' := final (mergeSelectedRouteToClosest Sample.distance false s) in
  In "A" (routeNames s') /\ routes s' = [1] /\ selectedRoute s' = None /\
  length (layerMarkers (Sample.layer s' 0)) = 1.
Proof.
  repeat split; try (vm_compute; reflexivity). vm_compute. now left.
Qed.

Lemma mergeSelectedRouteToClosest_absorbs_witness :
  let s := Sample.joinable in
  List.NoDup (routeNames s) /\
  getClosestRoute Sample.distance false s = Returned (Some 1) s /\
  let s' := final (mergeSelectedRouteToClosest Sample.distance false s) in
  ~ In (layerName (Sample.layer s 1)) (routeNames s') /\
  ~ In 1 (routes s') /\
  selectedRoute s' = Some 0 /\
  exists S', heap s' !! 0 = Some S' /\
    layerMarkers S' = layerMarkers (Sample.layer s 0) ++ layerMarkers (Sample.layer s 1) /\
    length (layerMarkers S') =
      length (layerMarkers (Sample.layer s 0)) + length (layerMarkers (Sample.layer s 1)).
Proof.
  assert (Hnd : List.NoDup (routeNames Sample.joinable)).
  { change (List.NoDup ["A"; "B"]). repeat constructor; simpl; intuition discriminate. }
  split; [exact Hnd|]. split; [vm_compute; reflexivity|].
  apply (mergeSelectedRouteToClosest_absorbs Sample.distance false Sample.joinable
           0 1 (Sample.layer Sample.joinable 0) (Sample.layer Sample.joinable 1)).
  - exact Hnd.
  - reflexivity.
  - reflexivity.
  - vm_compute. reflexivity.
  - reflexivity.
Defined.

Lemma getClosestRoute_first_candidate_witness :
  let s := Sample.joinable in
  let r := firstCandidate Sample.distance s 0 (Sample.point 100 0) in
  r = Some 1 /\
  getClosestRoute Sample.distance false s = Returned r s /\
  r <> Some 0.
Proof.
  split; [vm_compute; reflexivity|].
  assert (Hwf : forall l, In l (routes Sample.joinable) -> l <> 0 ->
            exists R, heap Sample.joinable !! l = Some R /\
              (layerSegments R <> [] ->
               is_Some (RouteLayer.getLastLatLng R) /\ is_Some (firstPoint R))).
  { intros l Hl Hne. change (In l [0; 1]) in Hl.
    destruct Hl as [<-|[<-|[]]]; [now elim Hne|].
    exists (Sample.layer Sample.joinable 1). split; [reflexivity|].
    intros _. split; eexists; reflexivity. }
  destruct (getClosestRoute_first_candidate Sample.distance false Sample.joinable 0
              (Sample.layer Sample.joinable 0) (Sample.point 100 0)
              eq_refl eq_refl eq_refl Hwf) as (H1 & H2 & _).
  split; [exact H1 | exact H2].
Defined.

Lemma setData_markers_only_witness :
  let s := Sample.calls [AddRoute Sample.routeA] in
  let m := Sample.marker "m" (Sample.point 5 5) in
  exists s' T',
    setData Sample.iconTypes (Some [RouteData.mk None [] [m]]) s = Returned tt s' /\
    routes s' = routes s /\
    heap s' !! 0 = Some T' /\
    layerMarkers T' = [Sample.marker "a" (Sample.point 0 0); m].
Proof.
  destruct (setData_markers_only Sample.iconTypes
              (Sample.calls [AddRoute Sample.routeA])
              (RouteData.mk None [] [Sample.marker "m" (Sample.point 5 5)])
              0 (Sample.layer (Sample.calls [AddRoute Sample.routeA]) 0))
    as (s' & T' & H1 & H2 & _ & _ & H5 & H6 & _).
  - reflexivity.
  - vm_compute. discriminate.
  - left. reflexivity.
  - reflexivity.
  - exists s', T'. repeat split; assumption.
Defined.

(** ** Names on import *)

Lemma namesOf_app_store h k ls :
  (forall l, In l ls -> l < length h) -> namesOf (h ++ k) ls = namesOf h ls.
Proof.
  intros H. unfold namesOf. induction ls as [|x ls IH]; [reflexivity|].
  assert (IH' := IH (fun l Hl => H l (or_intror Hl))).
  simpl. rewrite lookup_app_l by (apply H; now left).
  destruct (h !! x); simpl; [f_equal|]; exact IH'.
Qed.

Lemma importedLayer_name s d :
  ~ In (layerName (importedLayer s d)) (routeNames s).
Proof.
  unfold importedLayer.
  destruct (isNameAvailable s (RouteData.name d)) eqn:E.
  - destruct (RouteData.name d) as [n|] eqn:En; [|discriminate].
    apply isNameAvailable_true in E as [E _].
    unfold layerName, RouteLayerFactory.createRouteLayerFromData. simpl.
    now rewrite En.
  - destruct (createRouteName_spec s (RouteData.name d)) as (k & _ & Hk & Hfree & _).
    unfold layerName, RouteLayerFactory.createRouteLayerFromData. simpl.
    now rewrite Hk.
Qed.

(** The import path renames on collision: one imported route keeps the names
    of the collection pairwise distinct (and the references valid). *)
Lemma addLayerFromData_names_distinct d s :
  List.NoDup (routeNames s) ->
  (forall l, In l (routes s) -> l < length (heap s)) ->
  let s' := final (addLayerFromData d s) in
  List.NoDup (routeNames s') /\
  (forall l, In l (routes s') -> l < length (heap s')).
Proof.
  intros Hnd Hwf s'. unfold s'. rewrite addLayerFromData_run. cbn [final].
  assert (Hnames : namesOf (heap s ++ [importedLayer s d]) (routes s ++ [length (heap s)])
                   = routeNames s ++ [layerName (importedLayer s d)]).
  { rewrite namesOf_app, namesOf_app_store by exact Hwf.
    rewrite (namesOf_cons_Some _ _ _ (importedLayer s d)); [reflexivity|].
    now apply list_lookup_middle. }
  split.
  - rewrite routeNames_namesOf. fields.
    assert (Hgoal : List.NoDup (routeNames s ++ [layerName (importedLayer s d)])).
    { rewrite <- (rev_involutive (routeNames s ++ _)). apply NoDup_rev.
      rewrite rev_app_distr. simpl. constructor.
      - rewrite <- in_rev. apply importedLayer_name.
      - now apply NoDup_rev. }
    destruct (selectedRoute s); [rewrite namesOf_alter by reflexivity|];
      rewrite Hnames; exact Hgoal.
  - fields. intros l Hl.
    assert (Hlen : l < length (heap s ++ [importedLayer s d])).
    { rewrite length_app. simpl. apply in_app_or in Hl as [Hl|[<-|[]]]; [|lia].
      specialize (Hwf l Hl). lia. }
    destruct (selectedRoute s); [rewrite length_alter|]; exact Hlen.
Qed.

(** * Further properties of the service *)

(** ** Names *)

(** X1: [isNameAvailable name] is true exactly when the name is given, is
    not the empty string and is borne by no route of the collection. *)
Theorem isNameAvailable_iff (s : RoutesService) (name : option string) :
  isNameAvailable s name = true <->
  exists n, name = Some n /\ n <> "" /\ ~ In n (routeNames s).
Proof.
  destruct name as [n|].
  - rewrite isNameAvailable_true. split.
    + intros [H1 H2]. exists n. auto.
    + intros (m & [= <-] & H1 & H2). auto.
  - simpl. split; [discriminate | intros (n & H & _); discriminate].
Qed.

(** X2: [getRouteByName name] is null exactly when no route bears the
    name; otherwise it is the first route of the collection, in collection
    order, that bears it. *)
Theorem getRouteByName_first (s : RoutesService) (routeName : string) :
  match getRouteByName s routeName with
  | None => ~ In routeName (routeNames s)
  | Some l =>
      exists pre post L,
        routes s = pre ++ l :: post /\ heap s !! l = Some L /\
        layerName L = routeName /\ ~ In routeName (namesOf (heap s) pre)
  end.
Proof.
  destruct (getRouteByName s routeName) as [l|] eqn:F.
  - destruct (findByName_Some _ _ _ _ F) as (pre & post & L & H1 & H2 & H3 & H4 & _).
    exists pre, post, L. auto.
  - now apply findByName_None.
Qed.

Lemma createRouteName_loop_bound fuel names r i n :
  createRouteName_loop fuel names r i = Some n ->
  exists k, i <= k < i + fuel /\ n = candidateName r k.
Proof.
  revert i. induction fuel as [|fuel IH]; intros i H; [discriminate|].
  simpl in H. destruct (nameInUse names (candidateName r i)).
  - destruct (IH (S i) H) as (k & Hk & ->). exists k. split; [lia|reflexivity].
  - injection H as <-. exists i. split; [lia|reflexivity].
Qed.

(** X3: [createRouteName] always returns: its loop ends within one more
    step than there are routes.  The name returned is the stripped base
    followed by a space and the smallest index from 1 whose candidate no
    route bears, and [isNameAvailable] accepts it. *)
Theorem createRouteName_available (s : RoutesService) (base : option string) :
  let r := stripNumber (default (route (resourcesService s)) base) in
  exists k,
    1 <= k <= length (routeNames s) + 1 /\
    createRouteName s base = candidateName r k /\
    ~ In (candidateName r k) (routeNames s) /\
    (forall j, 1 <= j < k -> In (candidateName r j) (routeNames s)) /\
    isNameAvailable s (Some (createRouteName s base)) = true.
Proof.
  intros r.
  destruct (createRouteName_spec s base) as (k & Hk & E & Hfree & Hbelow & Hav).
  fold r in E, Hfree, Hbelow.
  exists k. repeat split; try assumption.
  destruct (createRouteName_loop_returns (routeNames s) r 1) as (n & Hn).
  destruct (createRouteName_loop_bound _ _ _ _ _ Hn) as (k' & Hk' & ->).
  assert (createRouteName s base = candidateName r k') as E'.
  { unfold createRouteName. fold r. now rewrite Hn. }
  rewrite E in E'. apply candidateName_inj in E'. lia.
Qed.

Lemma isDigit_not_space c : isDigit c = true -> isSpace c = false.
Proof.
  unfold isDigit, isSpace. intros H. apply andb_true_iff in H as [H _].
  apply Nat.leb_le in H. apply Nat.eqb_neq. lia.
Qed.

Lemma allDigits_matchHere s : allDigits s = true -> matchHere s = None.
Proof.
  induction s as [|c s IH]; [reflexivity|]. simpl. intros H.
  apply andb_true_iff in H as [Hc Hs]. rewrite (IH Hs).
  rewrite (isDigit_not_space c Hc). now destruct (isLineTerminator c).
Qed.

Lemma allDigits_skipDigits s : allDigits s = true -> skipDigits s = "".
Proof.
  induction s as [|c s IH]; [reflexivity|]. simpl. intros H.
  apply andb_true_iff in H as [Hc Hs]. rewrite Hc. auto.
Qed.

Lemma allDigits_string_of_uint d : allDigits (NilEmpty.string_of_uint d) = true.
Proof. induction d; simpl; auto. Qed.

Lemma showIndex_digits k :
  exists d ds, showIndex k = String d ds /\ isDigit d = true /\ allDigits ds = true.
Proof.
  unfold showIndex.
  assert (Hnil : Nat.to_uint k <> Decimal.Nil).
  { rewrite <- (Unsigned.of_to k) at 1. rewrite Unsigned.to_of.
    apply DecimalFacts.unorm_nonnil. }
  pose proof (allDigits_string_of_uint (Nat.to_uint k)) as Hall.
  destruct (Nat.to_uint k); [congruence|..]; simpl in *;
    eexists _, _; (split; [reflexivity|]); split; auto.
Qed.

Lemma append_empty_r (s : string) : s +:+ "" = s.
Proof.
  induction s as [|c s IH]; [reflexivity|].
  change (String c (s +:+ "") = String c s). now rewrite IH.
Qed.

Lemma matchHere_trailing r d ds :
  singleLine r = true -> isDigit d = true -> allDigits ds = true ->
  matchHere (r +:+ String " " (String d ds)) = Some (r, "").
Proof.
  intros Hr Hd Hds. induction r as [|c r IH]; simpl in *.
  - assert (H : matchHere (String d ds) = None).
    { apply allDigits_matchHere. simpl. now rewrite Hd, Hds. }
    simpl in H. rewrite H. rewrite Hd. now rewrite (allDigits_skipDigits ds Hds).
  - apply andb_true_iff in Hr as [Hc Hr]. apply negb_true_iff in Hc.
    rewrite Hc. now rewrite (IH Hr).
Qed.

Lemma stripNumber_matchHere s g r :
  matchHere s = Some (g, r) -> stripNumber s = g +:+ r.
Proof.
  destruct s as [|c s]; [discriminate|]. intros H.
  change (stripNumber (String c s)) with
    (match matchHere (String c s) with
     | Some (g, r) => g +:+ r
     | None => String c (stripNumber s)
     end).
  now rewrite H.
Qed.

(** X4: on a name of one line, the number [createRouteName] strips is the
    trailing one: stripping the candidate made of [r] and an index gives
    [r] back, so the name created from such a candidate is again made of
    [r] and an index. *)
Theorem stripNumber_candidateName (s : RoutesService) (r : string) (k : nat) :
  singleLine r = true ->
  stripNumber (candidateName r k) = r /\
  exists k', 1 <= k' /\
    createRouteName s (Some (candidateName r k)) = candidateName r k'.
Proof.
  intros Hr.
  assert (E : stripNumber (candidateName r k) = r).
  { destruct (showIndex_digits k) as (d & ds & Hk & Hd & Hds).
    unfold candidateName. rewrite Hk.
    change (" " +:+ String d ds) with (String " " (String d ds)).
    rewrite (stripNumber_matchHere _ _ _ (matchHere_trailing r d ds Hr Hd Hds)).
    apply append_empty_r. }
  split; [exact E|].
  destruct (createRouteName_spec s (Some (candidateName r k))) as (k' & Hk' & Hc & _).
  simpl in Hc. rewrite E in Hc. exists k'. auto.
Qed.

Lemma stripNumber_candidateName_witness :
  singleLine "Day 2 morning" = true /\
  stripNumber (candidateName "Day 2 morning" 7) = "Day 2 morning".
Proof.
  split; [reflexivity|].
  apply (stripNumber_candidateName Sample.empty "Day 2 morning" 7). reflexivity.
Defined.

Lemma hasSpaceDigit_matchHere s : hasSpaceDigit s = false -> matchHere s = None.
Proof.
  induction s as [|c s IH]; [reflexivity|]. simpl. intros H.
  apply orb_false_iff in H as [Hc Hs]. rewrite (IH Hs).
  destruct (isLineTerminator c); destruct (isSpace c); simpl in *; try reflexivity;
    destruct s as [|d s']; try reflexivity; now rewrite Hc.
Qed.

(** X5: a name in which no space is followed by a digit is left as it is by
    the stripping of [createRouteName]. *)
Theorem stripNumber_without_number (s : string) :
  hasSpaceDigit s = false -> stripNumber s = s.
Proof.
  induction s as [|c s IH]; [reflexivity|]. intros H.
  assert (Hm := hasSpaceDigit_matchHere _ H).
  simpl in H. apply orb_false_iff in H as [_ Hs].
  change (stripNumber (String c s)) with
    (match matchHere (String c s) with
     | Some (g, r) => g +:+ r
     | None => String c (stripNumber s)
     end).
  rewrite Hm, (IH Hs). reflexivity.
Qed.

Lemma stripNumber_without_number_witness :
  hasSpaceDigit "Route66 north" = false /\ stripNumber "Route66 north" = "Route66 north".
Proof.
  split; [reflexivity|]. apply stripNumber_without_number. reflexivity.
Defined.

(** ** The collection and the selection *)

(** X6: [addRoute] always returns.  It appends one layer, holding the route
    it was given, at the end of the collection, attaches it to the map,
    leaves it selected and in Edit state, and notifies the change; the
    layer selected before is put in ReadOnly state and no other layer is
    touched. *)
Theorem addRoute_appends (route : IRoute.t) (s : RoutesService) :
  validRefs s ->
  let new := length (heap s) in
  exists s' N,
    addRoute route s = Returned tt s' /\
    routes s' = routes s ++ [new] /\
    selectedRoute s' = Some new /\
    length (heap s') = S (length (heap s)) /\
    heap s' !! new = Some N /\
    RouteLayer.route N = route /\ RouteLayer.state N = Edit /\
    (forall old L, selectedRoute s = Some old -> heap s !! old = Some L ->
       heap s' !! old = Some (RouteLayer.setReadOnlyState L)) /\
    (forall l, l < new -> selectedRoute s <> Some l -> heap s' !! l = heap s !! l) /\
    events s' = events s ++ [MapAddLayer new; RouteChanged (Some new)].
Proof.
  intros [_ Hsel] new. unfold addRoute. exec. rewrite selectRoute_run. exec.
  fold new.
  assert (Hnew : alter RouteLayer.setEditRouteState new
                   (heap s ++ [RouteLayerFactory.createRouteLayer route]) !! new
                 = Some (RouteLayer.setEditRouteState
                           (RouteLayerFactory.createRouteLayer route))).
  { apply lookup_alter_same. now apply list_lookup_middle. }
  destruct (selectedRoute s) as [old|] eqn:E.
  - assert (Hold : old < new) by (apply Hsel; reflexivity).
    eexists _, _. split; [reflexivity|]. exec.
    split; [reflexivity|]. split; [reflexivity|].
    rewrite !length_alter, length_app. simpl.
    split; [lia|]. split; [rewrite list_lookup_alter_ne by lia; exact Hnew|].
    split; [reflexivity|]. split; [reflexivity|]. split; [|split].
    + intros o L [= <-] HL. apply lookup_alter_same.
      rewrite list_lookup_alter_ne by lia. now apply lookup_app_l_Some.
    + intros l Hl Hne. rewrite !list_lookup_alter_ne by (first [lia | congruence]).
      apply lookup_app_l. exact Hl.
    + now rewrite <- app_assoc.
  - eexists _, _. split; [reflexivity|]. exec.
    split; [reflexivity|]. split; [reflexivity|].
    rewrite !length_alter, length_app. simpl.
    split; [lia|]. split; [exact Hnew|].
    split; [reflexivity|]. split; [reflexivity|]. split; [|split].
    + discriminate.
    + intros l Hl Hne. rewrite !list_lookup_alter_ne by lia.
      apply lookup_app_l. exact Hl.
    + now rewrite <- app_assoc.
Qed.

Lemma addRoute_appends_witness :
  validRefs Sample.joinable /\
  exists s',
    addRoute Sample.routeA Sample.joinable = Returned tt s' /\
    routes s' = [0; 1; 2] /\ selectedRoute s' = Some 2.
Proof.
  assert (H : validRefs Sample.joinable).
  { split.
    - intros l Hl. change (In l [0; 1]) in Hl. change (l < 2).
      destruct Hl as [<-|[<-|[]]]; lia.
    - intros l Hl. change (Some 0 = Some l) in Hl. change (l < 2).
      injection Hl as <-. lia. }
  split; [exact H|].
  destruct (addRoute_appends Sample.routeA Sample.joinable H)
    as (s' & N & H1 & H2 & H3 & _).
  exists s'. repeat split; assumption.
Defined.

(** [removeRoute] on the first route bearing the name. *)
Lemma removeRoute_first (s : RoutesService) (routeName : string) (l : loc) :
  getRouteByName s routeName = Some l ->
  exists pre post s',
    routes s = pre ++ l :: post /\ ~ In l pre /\
    ~ In routeName (namesOf (heap s) pre) /\
    removeRoute routeName s = Returned tt s' /\
    routes s' = pre ++ post /\
    (selectedRoute s = Some l ->
       selectedRoute s' = None /\
       heap s' = alter RouteLayer.setReadOnlyState l (heap s) /\
       events s' = events s ++ [RouteChanged None; MapRemoveLayer l]) /\
    (selectedRoute s <> Some l ->
       selectedRoute s' = selectedRoute s /\ heap s' = heap s /\
       events s' = events s ++ [MapRemoveLayer l]).
Proof.
  intros F.
  destruct (findByName_Some _ _ _ _ F) as (pre & post & L & Hr & HL & Hname & Hpre & Hl).
  exists pre, post. unfold removeRoute. exec. rewrite F.
  destruct (sameRef (selectedRoute s) l) eqn:S.
  - apply sameRef_true in S. exec. rewrite selectRoute_run, S. exec.
    eexists. split; [exact Hr|]. split; [exact Hl|]. split; [exact Hpre|].
    split; [reflexivity|]. exec.
    rewrite Hr, indexOfLoc_first, spliceOne_middle by assumption.
    split; [reflexivity|]. split.
    + intros _. repeat split. now rewrite <- app_assoc.
    + congruence.
  - exec. eexists. split; [exact Hr|]. split; [exact Hl|]. split; [exact Hpre|].
    split; [reflexivity|]. exec.
    rewrite Hr, indexOfLoc_first, spliceOne_middle by assumption.
    split; [reflexivity|]. split.
    + intros E. apply sameRef_true in E. congruence.
    + intros _. repeat split.
Qed.

(** X7: [removeRoute name] always returns.  Without a route of that name it
    changes nothing.  Otherwise it takes out of the collection exactly the
    first route bearing the name, whatever other routes bear it too: the
    routes before and after keep their order, the selection is cleared only
    when that route was the selected one, and no other layer is touched. *)
Theorem removeRoute_first_match (s : RoutesService) (routeName : string) :
  match getRouteByName s routeName with
  | None => removeRoute routeName s = Returned tt s
  | Some l =>
      exists pre post s',
        routes s = pre ++ l :: post /\ ~ In l pre /\
        ~ In routeName (namesOf (heap s) pre) /\
        removeRoute routeName s = Returned tt s' /\
        routes s' = pre ++ post /\
        length (routes s') + 1 = length (routes s) /\
        (selectedRoute s = Some l ->
           selectedRoute s' = None /\
           heap s' = alter RouteLayer.setReadOnlyState l (heap s) /\
           events s' = events s ++ [RouteChanged None; MapRemoveLayer l]) /\
        (selectedRoute s <> Some l ->
           selectedRoute s' = selectedRoute s /\ heap s' = heap s /\
           events s' = events s ++ [MapRemoveLayer l])
  end.
Proof.
  destruct (getRouteByName s routeName) as [l|] eqn:F.
  - destruct (removeRoute_first s routeName l F)
      as (pre & post & s' & H1 & H2 & H3 & H4 & H5 & H6 & H7).
    exists pre, post, s'. repeat split; try assumption; try (apply H6; assumption);
      try (apply H7; assumption).
    rewrite H1, H5, !length_app. simpl. lia.
  - unfold removeRoute. exec. now rewrite F.
Qed.





(** ** Import *)

Lemma existsb_head (t : string) (l : list string) :
  head l = Some t -> existsb (String.eqb t) l = true.
Proof. destruct l as [|x l]; [discriminate|]. intros [= ->]. simpl. now rewrite String.eqb_refl. Qed.

(** X10: the icon type of a marker that [setData] has gone over is the one
    it had, or else the first available one; a type that is in the table
    and is not the empty string is kept, and the rest of the marker is
    never changed; going over the marker a second time changes nothing; and
    when the table is not empty and holds no empty string, the type ends in
    the table. *)
Theorem normalizeType_available (availableIconTypes : list string) (m : Marker) :
  let m' := normalizeType availableIconTypes m in
  latlng m' = latlng m /\ title m' = title m /\
  (type m' = type m \/ type m' = head availableIconTypes) /\
  (forall t, type m = Some t -> In t availableIconTypes -> t <> "" -> m' = m) /\
  normalizeType availableIconTypes m' = m' /\
  (availableIconTypes <> [] -> ~ In "" availableIconTypes ->
   exists t, type m' = Some t /\ In t availableIconTypes).
Proof.
  intros m'. unfold m', normalizeType.
  assert (Hhead : normalizeType availableIconTypes (withType (head availableIconTypes) m)
                  = withType (head availableIconTypes) m).
  { unfold normalizeType. cbn [type withType].
    destruct (head availableIconTypes) as [h|] eqn:Hh; [|reflexivity].
    destruct (existsb (String.eqb h) availableIconTypes && negb (String.eqb h ""));
      reflexivity. }
  assert (Hin : forall t, existsb (String.eqb t) availableIconTypes = true <->
                          In t availableIconTypes).
  { intros t. rewrite existsb_exists. split.
    - intros (x & Hx & E). apply String.eqb_eq in E. now subst.
    - intros H. exists t. split; [exact H | apply String.eqb_refl]. }
  assert (Htable : availableIconTypes <> [] -> ~ In "" availableIconTypes ->
            exists t, head availableIconTypes = Some t /\ In t availableIconTypes).
  { intros Hne _. destruct availableIconTypes as [|x l]; [congruence|].
    exists x. split; [reflexivity | now left]. }
  destruct (type m) as [t|] eqn:Ht.
  - destruct (existsb (String.eqb t) availableIconTypes && negb (String.eqb t "")) eqn:C.
    + apply andb_true_iff in C as [C1 C2].
      repeat split; auto.
      * unfold normalizeType. now rewrite Ht, C1, C2.
      * intros _ _. exists t. split; [exact Ht | now apply Hin].
    + repeat split; auto.
      intros t' [= <-] Hi Hne. exfalso.
      apply andb_false_iff in C as [C|C].
      * apply Hin in Hi. congruence.
      * apply negb_false_iff, String.eqb_eq in C. contradiction.
  - repeat split; auto. discriminate.
Qed.

(** The import loop, route by route. *)
Lemma addLayersFromData_run (rs : list RouteData.t) (s : RoutesService) :
  exists s',
    addLayersFromData rs s = Returned tt s' /\
    routes s' = routes s ++ seq (length (heap s)) (length rs) /\
    length (heap s') = length (heap s) + length rs /\
    (rs = [] -> s' = s) /\
    (rs <> [] -> selectedRoute s' = Some (length (heap s) + length rs - 1)) /\
    (forall l X, heap s !! l = Some X ->
       exists X', heap s' !! l = Some X' /\ RouteLayer.route X' = RouteLayer.route X) /\
    (forall i d, rs !! i = Some d ->
       exists N, heap s' !! (length (heap s) + i) = Some N /\
         layerSegments N = RouteData.segments d /\
         layerMarkers N = RouteData.markers d).
Proof.
  revert s. induction rs as [|d rs IH]; intros s.
  - exists s. simpl. rewrite app_nil_r, Nat.add_0_r.
    repeat split; eauto; [congruence | discriminate].
  - simpl. rewrite (bind_eq _ _ _ _ _ (addLayerFromData_run d s)).
    set (s1 := {| resourcesService := resourcesService s;
                  heap := match selectedRoute s with
                          | Some old => alter RouteLayer.setReadOnlyState old
                                          (heap s ++ [importedLayer s d])
                          | None => heap s ++ [importedLayer s d]
                          end;
                  routes := routes s ++ [length (heap s)];
                  selectedRoute := Some (length (heap s));
                  nextSid := nextSid s;
                  events := events s ++ [MapAddLayer (length (heap s));
                                         RouteChanged (Some (length (heap s)))] |}).
    assert (Hlen1 : length (heap s1) = S (length (heap s))).
    { unfold s1. fields. destruct (selectedRoute s);
        rewrite ?length_alter, length_app; simpl; lia. }
    assert (Hkeep1 : forall l X, (heap s ++ [importedLayer s d]) !! l = Some X ->
              exists X', heap s1 !! l = Some X' /\
                         RouteLayer.route X' = RouteLayer.route X).
    { intros l X HX. unfold s1. fields. destruct (selectedRoute s) as [old|]; [|eauto].
      rewrite list_lookup_alter. destruct (decide (old = l)) as [->|Hne]; [|eauto].
      rewrite HX. eexists. split; reflexivity. }
    destruct (IH s1) as (s' & Hrun & Hr & Hl & Hnil & Hsel & Hkeep & Hnew).
    exists s'. split; [exact Hrun|]. split; [|split; [|split; [|split; [|split]]]].
    + rewrite Hr, Hlen1. unfold s1. fields. now rewrite <- app_assoc.
    + rewrite Hl, Hlen1. simpl. lia.
    + discriminate.
    + intros _. destruct rs as [|d' rs'].
      * rewrite (Hnil eq_refl). unfold s1. fields. simpl. f_equal. lia.
      * rewrite Hsel by discriminate. rewrite Hlen1. simpl. f_equal. lia.
    + intros l X HX.
      destruct (Hkeep1 l X (lookup_app_l_Some _ _ _ _ HX)) as (X1 & H1 & E1).
      destruct (Hkeep l X1 H1) as (X' & H2 & E2).
      exists X'. split; [exact H2 | congruence].
    + intros i d' Hi. destruct i as [|i]; simpl in Hi.
      * injection Hi as <-. rewrite Nat.add_0_r.
        destruct (Hkeep1 (length (heap s)) (importedLayer s d)) as (X1 & H1 & E1).
        { now apply list_lookup_middle. }
        destruct (Hkeep _ X1 H1) as (X' & H2 & E2).
        exists X'. split; [exact H2|].
        unfold layerSegments, layerMarkers. rewrite E2, E1.
        split; [apply importedLayer_segments | apply importedLayer_markers].
      * destruct (Hnew i d' Hi) as (N & HN & Hd).
        exists N. split; [|exact Hd].
        rewrite Hlen1 in HN. replace (length (heap s) + S i) with (S (length (heap s)) + i) by lia.
        exact HN.
Qed.

(** X11: [setData] with a list of routes that is not the markers-only case
    returns; it appends one new route per imported route, in the order of
    the list, each holding the segments of its payload and its markers with
    their icon type normalised; the last one is left selected, and the
    routes that were there keep their data. *)
Theorem setData_imports (availableIconTypes : list string)
    (rs : list RouteData.t) (s : RoutesService) :
  rs <> [] ->
  markersOnly rs s = false ->
  exists s',
    setData availableIconTypes (Some rs) s = Returned tt s' /\
    routes s' = routes s ++ seq (length (heap s)) (length rs) /\
    length (heap s') = length (heap s) + length rs /\
    selectedRoute s' = Some (length (heap s) + length rs - 1) /\
    (forall l X, heap s !! l = Some X ->
       exists X', heap s' !! l = Some X' /\ RouteLayer.route X' = RouteLayer.route X) /\
    (forall i d, rs !! i = Some d ->
       exists N, heap s' !! (length (heap s) + i) = Some N /\
         layerSegments N = RouteData.segments d /\
         layerMarkers N = map (normalizeType availableIconTypes) (RouteData.markers d)).
Proof.
  intros Hne Hmo.
  set (rs' := map (normalizeMarkers availableIconTypes) rs).
  assert (Hset : setData availableIconTypes (Some rs) s = addLayersFromData rs' s).
  { destruct rs as [|d rs0]; [congruence|].
    unfold rs', setData, routesJsonToRoutesObject, addLayersToMap.
    destruct rs0 as [|d0 rs0]; [|reflexivity].
    cbn [map]. exec. cbn [normalizeMarkers RouteData.segments].
    unfold markersOnly in Hmo. now rewrite Hmo. }
  destruct (addLayersFromData_run rs' s) as (s' & Hrun & Hr & Hl & _ & Hsel & Hkeep & Hnew).
  assert (Hlen : length rs' = length rs) by apply length_map.
  exists s'. rewrite Hset, <- Hlen. repeat split; try assumption.
  - apply Hsel. unfold rs'. destruct rs; [congruence | discriminate].
  - intros i d Hi.
    destruct (Hnew i (normalizeMarkers availableIconTypes d)) as (N & HN & Hs & Hm).
    { unfold rs'. rewrite list_lookup_fmap, Hi. reflexivity. }
    exists N. auto.
Qed.

Lemma setData_imports_witness :
  let rs := [RouteLayer.getData (Sample.layer Sample.joinable 0);
             RouteLayer.getData (Sample.layer Sample.joinable 1)] in
  exists s',
    setData Sample.iconTypes (Some rs) Sample.joinable = Returned tt s' /\
    routes s' = [0; 1; 2; 3] /\ selectedRoute s' = Some 3 /\
    routeNames s' = ["A"; "B"; "A 1"; "B 1"].
Proof.
  destruct (setData_imports Sample.iconTypes
              [RouteLayer.getData (Sample.layer Sample.joinable 0);
               RouteLayer.getData (Sample.layer Sample.joinable 1)]
              Sample.joinable) as (s' & H1 & H2 & _ & H3 & _).
  - discriminate.
  - reflexivity.
  - exists s'. split; [exact H1|]. split; [exact H2|]. split; [exact H3|].
    assert (E : s' = final (setData Sample.iconTypes
                  (Some [RouteLayer.getData (Sample.layer Sample.joinable 0);
                         RouteLayer.getData (Sample.layer Sample.joinable 1)])
                  Sample.joinable)) by now rewrite H1.
    rewrite E. vm_compute. reflexivity.
Defined.

(** ** Invariants of the collection *)

Lemma NoDup_drop_middle {X} (A M B : list X) :
  List.NoDup (A ++ M ++ B) -> List.NoDup (A ++ B).
Proof.
  induction A as [|a A IH]; simpl.
  - apply NoDup_app_remove_l.
  - intros H. inversion H as [|x l Hx Hl]; subst. constructor; [|auto].
    intros Hin. apply Hx. apply in_app_or in Hin as [Hin|Hin];
      apply in_or_app; [now left | right; apply in_or_app; now right].
Qed.

Lemma spliceOne_split {X} (i : Z) (l : list X) :
  exists A M B, l = A ++ M ++ B /\ spliceOne i l = A ++ B.
Proof.
  unfold spliceOne. set (n := spliceStart i (length l)).
  exists (take n l), (take 1 (drop n l)), (drop (S n) l). split; [|reflexivity].
  rewrite <- (take_drop n l) at 1. f_equal.
  rewrite <- (take_drop 1 (drop n l)) at 1. f_equal.
  rewrite drop_drop. f_equal. lia.
Qed.

Lemma refsInvariant_weaken b o s : refsInvariant b o s -> refsInvariant b None s.
Proof. intros (H1 & H2 & _). repeat split; try apply H2; [exact H1 | discriminate]. Qed.

Lemma stable_emit_refs b o e : stable (refsInvariant b o) (emit e).
Proof. apply stable_modify. intros s H. exact H. Qed.

Lemma stable_freshSid_refs b o : stable (refsInvariant b o) freshSid.
Proof. intros s H. exact H. Qed.

(** A method that keeps the name of the layer keeps the invariants. *)
Lemma stable_update_refs b o l f :
  (forall L, layerName (f L) = layerName L) ->
  stable (refsInvariant b o) (update l f).
Proof.
  intros Hf. apply stable_modify. intros s (H1 & [H2 H3] & H4).
  unfold refsInvariant, validRefs. fields. rewrite length_alter.
  repeat split; try assumption.
  destruct b; [|exact H1]. rewrite routeNames_namesOf in *. fields.
  now rewrite namesOf_alter.
Qed.

Lemma stable_spliceOne_refs b o (i : RoutesService -> Z) :
  stable (refsInvariant b o)
    (modify (fun s => set_routes (spliceOne (i s) (routes s)) s)).
Proof.
  apply stable_modify. intros s (H1 & [H2 H3] & H4).
  destruct (spliceOne_split (i s) (routes s)) as (A & M & B & Hl & Hs).
  unfold refsInvariant, validRefs. fields. rewrite Hs.
  repeat split; try assumption.
  - destruct b.
    + rewrite routeNames_namesOf in *. fields. rewrite Hl in H1.
      rewrite !namesOf_app in *. now apply NoDup_drop_middle in H1.
    + rewrite Hl in H1. now apply NoDup_drop_middle in H1.
  - intros l Hin. apply H2. rewrite Hl.
    apply in_app_or in Hin as [Hin|Hin]; apply in_or_app;
      [now left | right; apply in_or_app; now right].
Qed.

(** [selectRoute] on null or on a reference known to denote an object. *)
Lemma stable_selectRoute_refs b o r :
  r = None \/ r = o -> stable (refsInvariant b o) (selectRoute r).
Proof.
  intros Hr0 s (H1 & [H2 H3] & H4). rewrite selectRoute_run.
  unfold refsInvariant, validRefs. fields.
  assert (Hlen : length (heap (match selectedRoute s with
                     | Some old => set_heap (alter RouteLayer.setReadOnlyState old (heap s)) s
                     | None => s end)) = length (heap s)).
  { destruct (selectedRoute s); fields; now rewrite ?length_alter. }
  assert (Hr : routes (match selectedRoute s with
                     | Some old => set_heap (alter RouteLayer.setReadOnlyState old (heap s)) s
                     | None => s end) = routes s).
  { now destruct (selectedRoute s). }
  rewrite Hlen, Hr. repeat split; try assumption.
  - destruct b; [|exact H1]. rewrite routeNames_namesOf in *. fields. rewrite Hr.
    destruct (selectedRoute s); fields; [rewrite namesOf_alter by reflexivity|]; exact H1.
  - intros l Hl. destruct Hr0 as [->| ->]; [discriminate | now apply H4].
Qed.

(** After [deref l] has returned, [l] denotes an object. *)
Lemma stable_deref_refs {B} b l (k : RouteLayer.t -> M B) :
  (forall L, stable (refsInvariant b (Some l)) (k L)) ->
  stable (refsInvariant b None) (bind (deref l) k).
Proof.
  intros Hk s Hs. unfold bind, deref.
  destruct (heap s !! l) as [L|] eqn:E; cbn [orThrow ret throw]; [|exact Hs].
  assert (Hin : refsInvariant b (Some l) s).
  { destruct Hs as (H1 & H2 & _). repeat split; try apply H2; [exact H1|].
    intros x [= <-]. apply lookup_lt_is_Some. eauto. }
  specialize (Hk L s Hin). destruct (k L s); now apply refsInvariant_weaken with (o := Some l).
Qed.

Lemma stable_weaken_refs {A} b o (m : M A) :
  stable (refsInvariant b None) m -> stable (refsInvariant b o) m ->
  stable (refsInvariant b o) m.
Proof. auto. Qed.

Ltac keeps_name := intros ?; reflexivity.

Ltac refs_step :=
  lazymatch goal with
  | |- stable (refsInvariant _ _) (emit _) => apply stable_emit_refs
  | |- stable (refsInvariant _ _) freshSid => apply stable_freshSid_refs
  | |- stable (refsInvariant _ _) (update _ _) => apply stable_update_refs; keeps_name
  | |- stable (refsInvariant _ _) (modify (fun s => set_routes (spliceOne _ _) s)) =>
      apply (stable_spliceOne_refs _ _ (fun s => _))
  | |- stable (refsInvariant _ _) (selectRoute _) =>
      apply stable_selectRoute_refs; first [left; reflexivity | right; reflexivity]
  | |- stable (refsInvariant _ None) (bind (deref _) _) =>
      first [ solve [apply stable_deref_refs; intros ?; repeat refs_step]
            | apply stable_bind; [|intros ?] ]
  | |- stable (refsInvariant _ _) (let '(_, _) := ?p in _) => destruct p
  | |- stable _ (getClosestRoute _ _) => apply stable_getClosestRoute
  | |- stable _ (endToCheck _ _) => apply stable_endToCheck
  | |- _ => stable_step
  end.

Lemma stable_removeRoute_refs b routeName :
  stable (refsInvariant b None) (removeRoute routeName).
Proof. unfold removeRoute. repeat refs_step. Qed.

Lemma stable_changeRouteState_refs b l :
  stable (refsInvariant b None) (changeRouteState l).
Proof. unfold changeRouteState. repeat refs_step. Qed.

(** The state after a new layer has been appended and selected. *)
Lemma refsInvariant_append b (s s' : RoutesService) (n : string) :
  refsInvariant b None s ->
  (b = true -> ~ In n (routeNames s)) ->
  length (heap s') = S (length (heap s)) ->
  (forall ls, (forall l, In l ls -> l < length (heap s)) ->
     namesOf (heap s') ls = namesOf (heap s) ls) ->
  namesOf (heap s') [length (heap s)] = [n] ->
  routes s' = routes s ++ [length (heap s)] ->
  selectedRoute s' = Some (length (heap s)) ->
  refsInvariant b None s'.
Proof.
  intros (H1 & [H2 H3] & _) Hn Hlen Hold Hnew Hr Hsel.
  unfold refsInvariant, validRefs. rewrite Hr, Hsel, Hlen.
  assert (Hnd : forall {X} (l : list X) x, List.NoDup l -> ~ In x l -> List.NoDup (l ++ [x])).
  { intros X l x Hl Hx. rewrite <- (rev_involutive (l ++ [x])). apply NoDup_rev.
    rewrite rev_app_distr. simpl. constructor; [now rewrite <- in_rev | now apply NoDup_rev]. }
  repeat split.
  - destruct b.
    + rewrite routeNames_namesOf, Hr, namesOf_app, Hold, Hnew by exact H2.
      apply Hnd; [exact H1 | now apply Hn].
    + apply Hnd; [exact H1|]. intros Hin. specialize (H2 _ Hin). lia.
  - intros l Hl. apply in_app_or in Hl as [Hl|[<-|[]]]; [|lia].
    specialize (H2 _ Hl). lia.
  - intros l [= <-]. lia.
  - discriminate.
Qed.

Lemma addRoute_refs b route s :
  refsInvariant b None s ->
  (b = true -> ~ In (name (IRoute.properties route)) (routeNames s)) ->
  refsInvariant b None (final (addRoute route s)).
Proof.
  intros Hs Hn. unfold addRoute. exec. rewrite selectRoute_run. exec.
  set (L0 := RouteLayerFactory.createRouteLayer route).
  set (h1 := alter RouteLayer.setEditRouteState (length (heap s)) (heap s ++ [L0])).
  assert (Hnames : forall ls, namesOf h1 ls = namesOf (heap s ++ [L0]) ls).
  { intros ls. apply namesOf_alter. reflexivity. }
  apply (refsInvariant_append b s _ (name (IRoute.properties route)) Hs Hn); fields.
  - destruct (selectedRoute s); fields; unfold h1;
      rewrite ?length_alter, length_app; simpl; lia.
  - intros ls Hls.
    destruct (selectedRoute s); fields; [rewrite namesOf_alter by reflexivity|];
      rewrite Hnames; now apply namesOf_app_store.
  - assert (E : namesOf (heap s ++ [L0]) [length (heap s)]
                = [name (IRoute.properties route)]).
    { rewrite (namesOf_cons_Some _ _ _ L0); [reflexivity | now apply list_lookup_middle]. }
    destruct (selectedRoute s); fields; [rewrite namesOf_alter by reflexivity|];
      rewrite Hnames; exact E.
  - now destruct (selectedRoute s).
  - now destruct (selectedRoute s).
Qed.

Lemma stable_addLayerFromData_refs b d :
  stable (refsInvariant b None) (addLayerFromData d).
Proof.
  intros s Hs. rewrite addLayerFromData_run.
  apply (refsInvariant_append b s _ (layerName (importedLayer s d)) Hs); fields.
  - intros _. apply importedLayer_name.
  - destruct (selectedRoute s); rewrite ?length_alter, length_app; simpl; lia.
  - intros ls Hls.
    destruct (selectedRoute s); [rewrite namesOf_alter by reflexivity|];
      now apply namesOf_app_store.
  - assert (E : namesOf (heap s ++ [importedLayer s d]) [length (heap s)]
                = [layerName (importedLayer s d)]).
    { rewrite (namesOf_cons_Some _ _ _ (importedLayer s d));
        [reflexivity | now apply list_lookup_middle]. }
    destruct (selectedRoute s); [rewrite namesOf_alter by reflexivity|]; exact E.
  - reflexivity.
  - reflexivity.
Qed.

Lemma stable_addLayersFromData_refs b rs :
  stable (refsInvariant b None) (addLayersFromData rs).
Proof.
  induction rs as [|d rs IH]; simpl; repeat refs_step;
    [apply stable_addLayerFromData_refs | exact IH].
Qed.

Lemma stable_addMarkersToSelected_refs b d :
  stable (refsInvariant b None) (addMarkersToSelected d).
Proof.
  unfold addMarkersToSelected, stable. apply triple_get_bind. intros s0.
  apply triple_bind with (R := fun _ => refsInvariant b None).
  - intros s [Hs ->]. destruct (selectedRoute s0) as [l|] eqn:E; exec; [exact Hs|].
    destruct Hs as (H1 & [H2 H3] & H4).
    unfold refsInvariant, validRefs. fields. repeat split; try assumption.
    intros l Hl. apply H2. destruct (routes s0); [discriminate|].
    injection Hl as <-. now left.
  - intros _.
    match goal with |- triple ?P ?m _ _ => change (stable P m) end.
    repeat refs_step.
Qed.

Lemma stable_addLayersToMap_refs b rs :
  stable (refsInvariant b None) (addLayersToMap rs).
Proof.
  unfold addLayersToMap. repeat refs_step;
    first [apply stable_addMarkersToSelected_refs | apply stable_addLayersFromData_refs].
Qed.

Lemma stable_setData_refs b icons rs : stable (refsInvariant b None) (setData icons rs).
Proof. unfold setData. repeat refs_step; apply stable_addLayersToMap_refs. Qed.

Lemma stable_splitSelectedRouteAt_refs b icons segment :
  stable (refsInvariant b None) (splitSelectedRouteAt icons segment).
Proof.
  unfold splitSelectedRouteAt. repeat first [apply stable_setData_refs | refs_step].
Qed.

Lemma stable_mergeSelectedRouteToClosest_refs b d isFirst :
  stable (refsInvariant b None) (mergeSelectedRouteToClosest d isFirst).
Proof.
  unfold mergeSelectedRouteToClosest.
  repeat first [apply stable_removeRoute_refs | refs_step].
Qed.

Lemma call_refs b d icons op s :
  (b = true -> addsAvailableName op s) ->
  refsInvariant b None s -> refsInvariant b None (final (call d icons op s)).
Proof.
  intros Hop Hs. destruct op; simpl.
  - apply addRoute_refs; [exact Hs|]. intros Hb. specialize (Hop Hb). simpl in Hop.
    now apply isNameAvailable_true in Hop.
  - apply stable_final; [apply stable_removeRoute_refs | exact Hs].
  - apply stable_final; [apply stable_changeRouteState_refs | exact Hs].
  - apply stable_final; [apply stable_setData_refs | exact Hs].
  - apply stable_final; [apply stable_splitSelectedRouteAt_refs | exact Hs].
  - apply stable_final; [apply stable_mergeSelectedRouteToClosest_refs | exact Hs].
Qed.

(** X12: after every sequence of calls of the manager, whether they return
    or throw, the collection holds no layer twice, and the layers of the
    collection and the selected layer are objects of the store. *)
Theorem collection_holds_no_layer_twice (distanceTo : LatLng -> LatLng -> Q)
    (availableIconTypes : list string) (res : ResourcesService) (ops : list Op) :
  collectionInvariant (callAll distanceTo availableIconTypes ops (constructor res)).
Proof.
  assert (H : forall s, refsInvariant false None s ->
            refsInvariant false None (callAll distanceTo availableIconTypes ops s)).
  { induction ops as [|op ops IH]; intros s Hs; [exact Hs|].
    simpl. apply IH. apply call_refs; [discriminate | exact Hs]. }
  destruct (H (constructor res)) as (H1 & H2 & _).
  - repeat split; simpl; try constructor; try contradiction; discriminate.
  - split; assumption.
Qed.

(** X13: [addRoute] with a name in use is the only call that can bring a
    second route of one name into the collection: every other call of the
    manager, and [addRoute] with a name that [isNameAvailable] accepts,
    keeps the route names pairwise distinct, whether it returns or throws. *)
Theorem only_addRoute_duplicates_names (distanceTo : LatLng -> LatLng -> Q)
    (availableIconTypes : list string) (op : Op) (s : RoutesService) :
  namesInvariant s ->
  addsAvailableName op s ->
  namesInvariant (final (call distanceTo availableIconTypes op s)).
Proof.
  intros [H1 H2] Hop.
  destruct (call_refs true distanceTo availableIconTypes op s) as (H3 & H4 & _).
  - intros _. exact Hop.
  - repeat split; try apply H2; [exact H1 | discriminate].
  - split; assumption.
Qed.

Lemma only_addRoute_duplicates_names_witness :
  namesInvariant Sample.joinable /\
  isNameAvailable Sample.joinable (Some "C") = true /\
  namesInvariant
    (final (call Sample.distance Sample.iconTypes
              (AddRoute (Sample.routeNamed "C" [Sample.g1] []))
              Sample.joinable)).
Proof.
  assert (H : namesInvariant Sample.joinable).
  { split; [|split].
    - change (List.NoDup ["A"; "B"]). repeat constructor; simpl; intuition discriminate.
    - intros l Hl. change (In l [0; 1]) in Hl. change (l < 2).
      destruct Hl as [<-|[<-|[]]]; lia.
    - intros l Hl. change (Some 0 = Some l) in Hl. change (l < 2).
      injection Hl as <-. lia. }
  split; [exact H|]. split; [reflexivity|].
  apply (only_addRoute_duplicates_names Sample.distance Sample.iconTypes
           (AddRoute (Sample.routeNamed "C" [Sample.g1] []))
           Sample.joinable H).
  reflexivity.
Defined.

(** ** Split and merge: what is selected, and the calls that throw *)

Lemma isNameAvailable_ext (s s' : RoutesService) (n : option string) :
  routes s' = routes s ->
  (forall ls, namesOf (heap s') ls = namesOf (heap s) ls) ->
  isNameAvailable s' n = isNameAvailable s n.
Proof.
  intros Hr Hn. destruct n as [n|]; [|reflexivity].
  assert (E : routeNames s' = routeNames s).
  { now rewrite !routeNames_namesOf, Hr, Hn. }
  destruct (isNameAvailable s (Some n)) eqn:A.
  - apply isNameAvailable_true. rewrite E. now apply isNameAvailable_true.
  - destruct (isNameAvailable s' (Some n)) eqn:A'; [|reflexivity].
    apply isNameAvailable_true in A'. rewrite E in A'.
    apply isNameAvailable_true in A'. congruence.
Qed.

(** X14: after a split at a segment before the last one, it is the new
    route, not the shortened one, that is selected and in Edit state:
    [setData] has selected it, so the last two statements of
    [splitSelectedRouteAt] act on it.  The shortened route is left in
    ReadOnly state, and the data change is raised for the new route.  The
    new route bears the name of the original followed by the split suffix
    when that name is available. *)
Theorem splitSelectedRouteAt_selects_postfix (availableIconTypes : list string)
    (s : RoutesService) (sel : loc) (L : RouteLayer.t)
    (segment segAt next : RouteSegment) (i : nat) (p : LatLng) :
  selectedRoute s = Some sel ->
  heap s !! sel = Some L ->
  indexOfSegment segment (layerSegments L) = Z.of_nat i ->
  layerSegments L !! i = Some segAt ->
  layerSegments L !! S i = Some next ->
  last (latlngs segAt) = Some p ->
  exists s' A' B',
    splitSelectedRouteAt availableIconTypes segment s = Returned tt s' /\
    selectedRoute s' = Some (length (heap s)) /\
    heap s' !! sel = Some A' /\ RouteLayer.state A' = ReadOnly /\
    layerName A' = layerName L /\ layerMarkers A' = layerMarkers L /\
    heap s' !! length (heap s) = Some B' /\ RouteLayer.state B' = Edit /\
    layerMarkers B' = [] /\
    (isNameAvailable s (Some (layerName L +:+ split (resourcesService s))) = true ->
     layerName B' = layerName L +:+ split (resourcesService s)) /\
    nextSid s' = S (nextSid s) /\
    events s' = events s ++ [MapAddLayer (length (heap s));
                             RouteChanged (Some (length (heap s)));
                             DataChanged (length (heap s))].
Proof.
  intros Hsel HL Hidx Hat Hnext Hp.
  assert (Hi : S i < length (layerSegments L)) by (apply lookup_lt_is_Some; eauto).
  assert (Hlt : sel < length (heap s)) by (apply lookup_lt_is_Some; eauto).
  unfold splitSelectedRouteAt. exec. rewrite Hsel. exec. rewrite HL. exec.
  rewrite Hidx. replace (Z.of_nat i + 1)%Z with (Z.of_nat (S i)) by lia.
  rewrite spliceFrom_at by lia. exec.
  simpl_lookup. exec.
  assert (Hend : RouteLayer.getLastLatLng
            (setLayerSegments (take (S i) (layerSegments L))
               (RouteLayer.setHiddenState L)) = Some p).
  { rewrite getLastLatLng_setLayerSegments, (last_take_S _ _ _ Hat). exact Hp. }
  rewrite (lastLatLng_run _ _ _ Hend).
  assert (Hhead : head (drop (S i) (layerSegments L)) = Some next).
  { rewrite head_lookup, lookup_drop, Nat.add_0_r. exact Hnext. }
  rewrite Hhead. exec.
  rewrite setData_one_route by discriminate.
  rewrite addLayerFromData_run. exec. rewrite Hsel.
  eexists _, _, _. split; [reflexivity|]. exec.
  rewrite !length_alter.
  split; [reflexivity|].
  split; [solve_lookup|]. split; [reflexivity|].
  split; [reflexivity|]. split; [reflexivity|].
  split; [solve_lookup|]. split; [reflexivity|].
  split; [layer_simpl; now rewrite importedLayer_markers|].
  split.
  { intros Hav. unfold importedLayer.
    cbn [normalizeMarkers RouteData.name].
    erewrite (isNameAvailable_ext s); [rewrite Hav; reflexivity | reflexivity |].
    intros ls. fields. rewrite !namesOf_alter by reflexivity. reflexivity. }
  split; [reflexivity|].
  now rewrite <- !app_assoc.
Qed.

Lemma splitSelectedRouteAt_selects_postfix_witness :
  exists s' B',
    splitSelectedRouteAt Sample.iconTypes Sample.g2 Sample.threeSegments
      = Returned tt s' /\
    selectedRoute s' = Some 1 /\ heap s' !! 1 = Some B' /\
    RouteLayer.state B' = Edit /\ layerName B' = "T Split".
Proof.
  destruct (splitSelectedRouteAt_selects_postfix Sample.iconTypes Sample.threeSegments 0
              (Sample.layer Sample.threeSegments 0)
              Sample.g2 Sample.g2 Sample.g3 1 (Sample.point 10 0)
              eq_refl eq_refl eq_refl eq_refl eq_refl eq_refl)
    as (s' & A' & B' & H1 & H2 & _ & _ & _ & _ & H3 & H4 & _ & H5 & _).
  exists s', B'. repeat split; try assumption. apply H5. reflexivity.
Defined.

(** X15: when the segment passed to [splitSelectedRouteAt] is not a segment
    of the selected route, [indexOf] gives -1 and [splice(0)] takes every
    segment out of the route; the call then throws on the last point that is
    no longer there.  The selected route is left hidden and without
    segments; no route is created. *)
Theorem splitSelectedRouteAt_foreign_segment (availableIconTypes : list string)
    (s : RoutesService) (sel : loc) (L : RouteLayer.t) (segment : RouteSegment) :
  selectedRoute s = Some sel ->
  heap s !! sel = Some L ->
  (forall x, In x (layerSegments L) -> sid x <> sid segment) ->
  exists s' L',
    splitSelectedRouteAt availableIconTypes segment s = Thrown s' /\
    routes s' = routes s /\ selectedRoute s' = Some sel /\
    length (heap s') = length (heap s) /\
    heap s' !! sel = Some L' /\
    layerSegments L' = [] /\ RouteLayer.state L' = Hidden /\
    layerMarkers L' = layerMarkers L.
Proof.
  intros Hsel HL Hno.
  assert (Hidx : indexOfSegment segment (layerSegments L) = (-1)%Z).
  { apply indexOfFrom_absent. intros x Hx. apply Nat.eqb_neq. now apply Hno. }
  unfold splitSelectedRouteAt. exec. rewrite Hsel. exec. rewrite HL. exec.
  rewrite Hidx. change (-1 + 1)%Z with (Z.of_nat 0).
  rewrite spliceFrom_at by lia. cbn [take]. exec. simpl_lookup. exec.
  eexists _, _. split; [reflexivity|]. exec. rewrite !length_alter.
  split; [reflexivity|]. split; [exact Hsel|]. split; [reflexivity|].
  split; [solve_lookup|]. repeat split.
Qed.

Lemma splitSelectedRouteAt_foreign_segment_witness :
  exists s' L',
    splitSelectedRouteAt Sample.iconTypes Sample.s1 Sample.threeSegments = Thrown s' /\
    heap s' !! 0 = Some L' /\ layerSegments L' = [].
Proof.
  destruct (splitSelectedRouteAt_foreign_segment Sample.iconTypes Sample.threeSegments 0
              (Sample.layer Sample.threeSegments 0) Sample.s1 eq_refl eq_refl)
    as (s' & L' & H1 & _ & _ & _ & H2 & H3 & _).
  - intros x Hx. change (In x [Sample.g1; Sample.g2; Sample.g3]) in Hx.
    destruct Hx as [<-|[<-|[<-|[]]]]; vm_compute; discriminate.
  - exists s', L'. auto.
Defined.

(** X16: with nothing selected, [splitSelectedRouteAt], [getClosestRoute]
    and [mergeSelectedRouteToClosest] throw at once and leave the state as
    it was. *)
Theorem nothing_selected_throws (distanceTo : LatLng -> LatLng -> Q)
    (availableIconTypes : list string) (s : RoutesService)
    (segment : RouteSegment) (isFirst : bool) :
  selectedRoute s = None ->
  splitSelectedRouteAt availableIconTypes segment s = Thrown s /\
  getClosestRoute distanceTo isFirst s = Thrown s /\
  mergeSelectedRouteToClosest distanceTo isFirst s = Thrown s.
Proof.
  intros H.
  assert (Hg : getClosestRoute distanceTo isFirst s = Thrown s).
  { unfold getClosestRoute. exec. now rewrite H. }
  repeat split.
  - unfold splitSelectedRouteAt. exec. now rewrite H.
  - exact Hg.
  - unfold mergeSelectedRouteToClosest. now rewrite (bind_thrown _ _ _ _ Hg).
Qed.

Lemma nothing_selected_throws_witness :
  selectedRoute Sample.empty = None /\
  mergeSelectedRouteToClosest Sample.distance true Sample.empty = Thrown Sample.empty.
Proof.
  split; [reflexivity|].
  apply (nothing_selected_throws Sample.distance Sample.iconTypes Sample.empty
           Sample.s1 true eq_refl).
Defined.

(** X17: [getClosestRoute] only reads: whether it returns or throws, the
    state after the call is the state before it. *)
Theorem getClosestRoute_reads_only (distanceTo : LatLng -> LatLng -> Q)
    (isFirst : bool) (s : RoutesService) :
  final (getClosestRoute distanceTo isFirst s) = s.
Proof. apply getClosestRoute_state. Qed.

(** X18: when [getClosestRoute] finds no route, [mergeSelectedRouteToClosest]
    throws on the route that is null, after it has hidden the selected
    route: the selected route is left in Hidden state, and nothing else is
    changed. *)
Theorem mergeSelectedRouteToClosest_without_closest
    (distanceTo : LatLng -> LatLng -> Q) (isFirst : bool)
    (s : RoutesService) (sel : loc) :
  selectedRoute s = Some sel ->
  getClosestRoute distanceTo isFirst s = Returned None s ->
  mergeSelectedRouteToClosest distanceTo isFirst s =
  Thrown (set_heap (alter RouteLayer.setHiddenState sel (heap s)) s).
Proof.
  intros Hsel Hget. unfold mergeSelectedRouteToClosest.
  rewrite (bind_eq _ _ _ _ _ Hget). exec. now rewrite Hsel.
Qed.

Lemma mergeSelectedRouteToClosest_without_closest_witness :
  let s := Sample.threeSegments in
  getClosestRoute Sample.distance false s = Returned None s /\
  RouteLayer.state (Sample.layer s 0) = Edit /\
  RouteLayer.state
    (Sample.layer (final (mergeSelectedRouteToClosest Sample.distance false s)) 0)
  = Hidden.
Proof.
  assert (H : getClosestRoute Sample.distance false Sample.threeSegments
              = Returned None Sample.threeSegments) by (vm_compute; reflexivity).
  split; [exact H|]. split; [reflexivity|].
  rewrite (mergeSelectedRouteToClosest_without_closest Sample.distance false
             Sample.threeSegments 0 eq_refl H).
  reflexivity.
Defined.

Lemma firstPoint_segments (L : RouteLayer.t) (p : LatLng) :
  firstPoint L = Some p -> layerSegments L <> [].
Proof. unfold firstPoint. destruct (layerSegments L); [discriminate | discriminate]. Qed.

Lemma firstLatLng_run (L : RouteLayer.t) (p : LatLng) (s : RoutesService) :
  firstPoint L = Some p -> firstLatLng L s = Returned (Some p) s.
Proof.
  intros H. rewrite firstLatLng_firstPoint by (eapply firstPoint_segments; eauto).
  now rewrite H.
Qed.

(** [removeRoute] of the second of two routes whose names differ, the first
    being selected. *)
Lemma removeRoute_second (s1 : RoutesService) (a b : loc) (A1 B : RouteLayer.t) :
  a <> b -> routes s1 = [a; b] -> selectedRoute s1 = Some a ->
  heap s1 !! a = Some A1 -> heap s1 !! b = Some B ->
  layerName A1 <> layerName B ->
  removeRoute (layerName B) s1 =
  Returned tt (set_routes [a] (set_events (events s1 ++ [MapRemoveLayer b]) s1)).
Proof.
  intros Hab Hr1 Hs1 HA1 HB1 Hn. unfold removeRoute. run_pure.
  unfold getRouteByName. rewrite Hr1. simpl. rewrite HA1, HB1.
  replace (layerName A1 =? layerName B)%string with false
    by (symmetry; now apply String.eqb_neq).
  rewrite String.eqb_refl. rewrite Hs1. simpl.
  replace (a =? b) with false by (symmetry; now apply Nat.eqb_neq).
  run_pure. run_pure. unfold modify. fields. rewrite Hr1.
  unfold indexOfLoc. simpl.
  replace (b =? a) with false by (symmetry; apply Nat.eqb_neq; congruence).
  rewrite Nat.eqb_refl. reflexivity.
Qed.

(** X19: the merge at the front.  The collection is [A, B], A is selected
    and has a first segment a0 followed by a1 (and possibly more), the last
    point of B is at less than 50 meters from the first point of A and the
    first point of B is not (the names of A and B differ).  Then
    [mergeSelectedRouteToClosest true] returns with the collection [A]
    alone: B is removed and is not reversed, the first segment a0 of A is
    dropped, and the segments of A are those of B followed by a1 with the
    last point of B put in front of its points (and by the segments after
    a1); the markers of B follow those of A; A is in Edit state. *)
Theorem mergeSelectedRouteToClosest_start_to_end
    (distanceTo : LatLng -> LatLng -> Q) (s : RoutesService) (a b : loc)
    (A B : RouteLayer.t) (a0 a1 : RouteSegment) (rest : list RouteSegment)
    (pa pf pl : LatLng) :
  routes s = [a; b] ->
  a <> b ->
  selectedRoute s = Some a ->
  heap s !! a = Some A ->
  heap s !! b = Some B ->
  layerName A <> layerName B ->
  layerSegments A = a0 :: a1 :: rest ->
  head (latlngs a0) = Some pa ->
  firstPoint B = Some pf ->
  RouteLayer.getLastLatLng B = Some pl ->
  (distanceTo pl pa < MERGE_THRESHOLD)%Q ->
  ~ (distanceTo pf pa < MERGE_THRESHOLD)%Q ->
  exists s' A',
    mergeSelectedRouteToClosest distanceTo true s = Returned tt s' /\
    routes s' = [a] /\
    selectedRoute s' = Some a /\
    heap s' !! a = Some A' /\
    layerSegments A' = layerSegments B ++ prependLatLng pl a1 :: rest /\
    layerMarkers A' = layerMarkers A ++ layerMarkers B /\
    layerName A' = layerName A /\
    RouteLayer.state A' = Edit.
Proof.
  intros Hr Hab Hsel HA HB Hnames HsegA Hpa Hpf HlastB Hnear Hfar.
  apply Qltb_lt in Hnear. apply Qltb_false in Hfar.
  assert (HfirstA : forall A1, layerSegments A1 = layerSegments A ->
            firstPoint A1 = Some pa).
  { intros A1 E. unfold firstPoint. now rewrite E, HsegA. }
  assert (HsegB : layerSegments B <> []) by (eapply firstPoint_segments; eauto).
  assert (Hget : getClosestRoute distanceTo true s = Returned (Some b) s).
  { unfold getClosestRoute. run_pure. rewrite Hsel. run_pure.
    run ltac:(apply deref_run; exact HA).
    run ltac:(apply firstLatLng_run; apply HfirstA; reflexivity).
    rewrite (closestAmong_find distanceTo s a A pa (routes s) HA).
    - rewrite Hr. simpl. unfold isCandidate, withinThreshold.
      rewrite HA, HB, HlastB, Nat.eqb_refl. simpl.
      replace (b =? a) with false by (symmetry; apply Nat.eqb_neq; congruence).
      destruct (layerSegments B); [congruence|]. simpl. now rewrite Hnear.
    - intros l Hl Hne. rewrite Hr in Hl.
      destruct Hl as [<-|[<-|[]]]; [congruence|].
      exists B. split; [exact HB|]. intros _. rewrite HlastB, Hpf. split; eauto. }
  unfold mergeSelectedRouteToClosest.
  run ltac:(exact Hget). run_pure. rewrite Hsel. run_pure. run_pure. run_pure.
  run_deref.
  run ltac:(eapply (removeRoute_second _ a b); fields;
            [exact Hab | exact Hr | exact Hsel | solve_lookup | solve_lookup | exact Hnames]).
  run_deref. run_pure. rewrite Hsel. run_pure. run_pure.
  run_deref.
  run ltac:(apply firstLatLng_run; apply HfirstA; reflexivity).
  run_deref. run ltac:(apply firstLatLng_run; exact Hpf). run_pure.
  rewrite Hfar. run_pure. run_pure. run_deref.
  layer_simpl. rewrite HsegA, spliceOne_head.
  run_deref. run ltac:(apply lastLatLng_run; exact HlastB). run_pure. run_pure.
  run_pure.
  eexists _, _. split; [reflexivity|]. exec.
  split; [reflexivity|]. split; [exact Hsel|].
  split; [solve_lookup|].
  layer_simpl. repeat split; reflexivity.
Qed.

Lemma mergeSelectedRouteToClosest_start_to_end_witness :
  let s := Sample.calls [AddRoute Sample.routeB; AddRoute Sample.routeA;
                         ChangeRouteState 0] in
  exists s' A',
    mergeSelectedRouteToClosest Sample.distance true s = Returned tt s' /\
    routes s' = [0] /\
    selectedRoute s' = Some 0 /\
    heap s' !! 0 = Some A' /\
    layerSegments A' =
      layerSegments (Sample.layer s 1) ++
      [prependLatLng (Sample.point 100 0) Sample.s2] /\
    layerMarkers A' = layerMarkers (Sample.layer s 0) ++ layerMarkers (Sample.layer s 1) /\
    layerName A' = layerName (Sample.layer s 0) /\
    RouteLayer.state A' = Edit.
Proof.
  intros s.
  apply (mergeSelectedRouteToClosest_start_to_end Sample.distance s
           0 1 (Sample.layer s 0) (Sample.layer s 1)
           Sample.b0 Sample.s2 []
           (Sample.point 110 0) (Sample.point 0 0) (Sample.point 100 0)).
  - reflexivity.
  - lia.
  - reflexivity.
  - reflexivity.
  - reflexivity.
  - vm_compute. discriminate.
  - reflexivity.
  - reflexivity.
  - reflexivity.
  - reflexivity.
  - vm_compute. reflexivity.
  - vm_compute. discriminate.
Defined.
